(** * evetrade patch scripts: [update_pages.py] and [final_update.py]

    The repository holds two straight-line Python scripts.  Each one reads a
    JSX page into the variable [content], rewrites it with a fixed sequence
    of [str.replace], [re.sub] and [str.split] statements, writes the buffer
    back and prints a fixed message.  This file embeds the three built-ins
    the scripts call, the statements of both scripts in their source order,
    and proves what the scripts do to the buffer, to the two files and to
    standard output.

    Text is a list of bytes (the UTF-8 encoding of the Python [str]); every
    literal the scripts search for is ASCII, so searching bytes and searching
    code points find the same occurrences.

    A script is run in two ways: [run] is the run in which every file
    operation works and the pages are plain text with [\n] line ends;
    [os_run] adds what text-mode files and the operating system can do to it
    (undecodable bytes, line-end translation, refused and interrupted
    calls).  The two agree where [run] applies. *)

From Stdlib Require Import Ascii ZArith.
From Equations Require Import Equations.
From stdpp Require Import gmap strings list.

Abbreviation text := (list ascii).

(** ** Python string built-ins *)

Section str_builtins.
Context {A : Type} `{EqDecision A}.
Implicit Types s old new sep sub : list A.

(** [sub in s]: [sub] is a contiguous slice of [s]. *)
Definition occurs sub s : Prop := ∃ pre post, s = pre ++ sub ++ post.

Fixpoint occursb sub s : bool :=
  if decide (sub `prefix_of` s) then true
  else match s with
       | [] => false
       | _ :: s' => occursb sub s'
       end.

(** The scan shared by [str.replace] and [re.sub]: walk the buffer from the
    left; where the matcher [m] accepts, emit the replacement it returns
    and jump over the [n] matched items, otherwise copy one item.  [lim] is
    the number of replacements still allowed ([None]: no bound).  The
    second component counts the replacements made (what [re.subn]
    reports).  An empty match emits the replacement and then copies one
    item, as CPython does. *)
Equations? sub_loop (m : list A → option (list A * nat)) (lim : option nat)
    (s : list A) : list A * nat by wf (length s) lt :=
sub_loop m lim s with decide (lim = Some 0) := {
  | left _ => (s, 0)
  | right _ with m s, s := {
    | None, [] => ([], 0)
    | None, c :: s' =>
        let r := sub_loop m lim s' in (c :: r.1, r.2)
    | Some (new, _), [] => (new, 1)
    | Some (new, 0), c :: s' =>
        let r := sub_loop m (pred <$> lim) s' in (new ++ c :: r.1, S r.2)
    | Some (new, S n), c :: s' =>
        let r := sub_loop m (pred <$> lim) (drop n s') in (new ++ r.1, S r.2) } }.
Proof. all: rewrite ?length_drop; simpl; lia. Qed.

(** The matcher of [str.replace(old, new)]: [old] at the front of the
    buffer. *)
Definition literal_match old new : list A → option (list A * nat) :=
  λ s, if decide (old `prefix_of` s) then Some (new, length old) else None.

(** [str.replace(old, new, count)]: a negative [count] (the default -1)
    means every occurrence. *)
Definition replace_limit (count : Z) : option nat :=
  if decide (count < 0)%Z then None else Some (Z.to_nat count).

Definition str_replace_n s old new (count : Z) : list A * nat :=
  sub_loop (literal_match old new) (replace_limit count) s.

Definition str_replace s old new (count : Z) : list A :=
  (str_replace_n s old new count).1.

(** [s.count(sub)]: the number of non-overlapping occurrences found by the
    left-to-right scan. *)
Definition str_count s sub : nat := (str_replace_n s sub sub (-1)).2.

(** [s.split(sep)] for a separator [o :: sep]. *)
Definition cons_first (c : A) (parts : list (list A)) : list (list A) :=
  match parts with
  | [] => [[c]]
  | p :: ps => (c :: p) :: ps
  end.

Equations? split_loop (o : A) (sep : list A) (s : list A) : list (list A)
    by wf (length s) lt :=
split_loop o sep [] := [[]];
split_loop o sep (c :: s') with decide ((o :: sep) `prefix_of` (c :: s')) := {
  | left _ => [] :: split_loop o sep (drop (length sep) s')
  | right _ => cons_first c (split_loop o sep s') }.
Proof. all: rewrite ?length_drop; simpl; lia. Qed.

(** [s.split(sep)]; [None] is the [ValueError] of an empty separator. *)
Definition str_split s sep : option (list (list A)) :=
  match sep with
  | [] => None
  | o :: sep' => Some (split_loop o sep' s)
  end.

(** [sep.join(parts)]. *)
Fixpoint str_join sep (parts : list (list A)) : list A :=
  match parts with
  | [] => []
  | [p] => p
  | p :: ps => p ++ sep ++ str_join sep ps
  end.
End str_builtins.

(** ** String literals

    Rocq strings have no escapes, so the escapes of Python's string literals
    are decoded by [lit]: [\n], [\\], [\'] and [\xHH].  A double quote inside
    a Python literal is written [\x22] here (the same character in Python). *)

Definition LF : ascii := ascii_of_nat 10.

Definition digit_value (c : ascii) : option nat :=
  let n := nat_of_ascii c in
  if decide (48 ≤ n ≤ 57) then Some (n - 48)
  else if decide (97 ≤ n ≤ 102) then Some (n - 87)
  else if decide (65 ≤ n ≤ 70) then Some (n - 55)
  else None.

Definition octal_value (c : ascii) : option nat :=
  let n := nat_of_ascii c in
  if decide (48 ≤ n ≤ 55) then Some (n - 48) else None.

Definition is_letter (c : ascii) : bool :=
  let n := nat_of_ascii c in
  bool_decide (97 ≤ n ≤ 122) || bool_decide (65 ≤ n ≤ 90).

Definition is_digit (c : ascii) : bool :=
  let n := nat_of_ascii c in bool_decide (48 ≤ n ≤ 57).

Fixpoint unescape (s : text) : text :=
  match s with
  | [] => []
  | c :: r =>
      if decide (c = "\"%char) then
        match r with
        | [] => [c]
        | e :: r' =>
            if decide (e = "n"%char) then LF :: unescape r'
            else if decide (e = "\"%char) then e :: unescape r'
            else if decide (e = "'"%char) then e :: unescape r'
            else if decide (e = "x"%char) then
              match r' with
              | h1 :: h2 :: r'' =>
                  match digit_value h1, digit_value h2 with
                  | Some a, Some b => ascii_of_nat (16 * a + b) :: unescape r''
                  | _, _ => c :: e :: unescape r'
                  end
              | _ => c :: e :: unescape r'
              end
            else c :: e :: unescape r'
        end
      else c :: unescape r
  end.

(** A Python literal ["..."] and a raw literal [r"..."]. *)
Definition lit (s : string) : text := unescape (String.list_ascii_of_string s).
Definition raw (s : string) : text := String.list_ascii_of_string s.

(** ** Exceptions

    The exceptions the built-ins can raise, and the error monad that threads
    them.  [Unmodelled] is not a Python exception: it marks [re] syntax this
    development does not give a meaning to. *)

Inductive re_error :=
| unbalanced_parenthesis
| unterminated_subpattern
| bad_escape
| invalid_group_reference.

Inductive exn :=
| FileNotFoundError (path : string)
| ValueError
| ReError (why : re_error)
| UnicodeDecodeError
| OSError
| Unmodelled.

Inductive res (A : Type) : Type :=
| Ok (a : A)
| Raise (e : exn).
Arguments Ok {A} a.
Arguments Raise {A} e.

#[global] Instance res_ret : MRet res := @Ok.
#[global] Instance res_bind : MBind res :=
  λ A B f r, match r with Ok a => f a | Raise e => Raise e end.
#[global] Instance res_fmap : FMap res :=
  λ A B f r, match r with Ok a => Ok (f a) | Raise e => Raise e end.

(** ** The fragment of Python's [re] the scripts use

    Every pattern in the two scripts is a sequence of literal characters
    (plain, or escaped with a backslash) and of capture groups around such
    sequences; every template is literal text with [\1], [\2] and [\n].
    [re_compile] reads that fragment, raises [re.error] where Python's parser
    does, and answers [Unmodelled] for the rest of the [re] syntax.  A double
    quote is written [\x22] in a pattern and [\042] in a template, the
    escapes Python's [re] has for it. *)

Inductive re_tok := TkChar (c : ascii) | TkOpen | TkClose.

Definition re_meta : text := raw ".^$*+?{[|".

Fixpoint re_lex (p : text) : res (list re_tok) :=
  match p with
  | [] => Ok []
  | c :: r =>
      if decide (c = "\"%char) then
        match r with
        | [] => Raise (ReError bad_escape)
        | e :: r' =>
            if decide (e = "n"%char) then (TkChar LF ::.) <$> re_lex r'
            else if decide (e = "x"%char) then
              match r' with
              | h1 :: h2 :: r'' =>
                  match digit_value h1, digit_value h2 with
                  | Some a, Some b =>
                      (TkChar (ascii_of_nat (16 * a + b)) ::.) <$> re_lex r''
                  | _, _ => Raise (ReError bad_escape)
                  end
              | _ => Raise (ReError bad_escape)
              end
            else if is_letter e || is_digit e then Raise Unmodelled
            else (TkChar e ::.) <$> re_lex r'
        end
      else if decide (c = "("%char) then (TkOpen ::.) <$> re_lex r
      else if decide (c = ")"%char) then (TkClose ::.) <$> re_lex r
      else if decide (c ∈ re_meta) then Raise Unmodelled
      else (TkChar c ::.) <$> re_lex r
  end.

Inductive re_item := RChar (c : ascii) | RGroup (body : text).
Abbreviation regex := (list re_item).

(** [grp] is the body of the group being read, when inside one.  A closing
    parenthesis outside a group is Python's "unbalanced parenthesis". *)
Fixpoint re_groups (grp : option text) (ts : list re_tok) : res regex :=
  match ts, grp with
  | [], None => Ok []
  | [], Some _ => Raise (ReError unterminated_subpattern)
  | TkChar c :: r, None => (RChar c ::.) <$> re_groups None r
  | TkChar c :: r, Some g => re_groups (Some (g ++ [c])) r
  | TkOpen :: r, None => re_groups (Some []) r
  | TkOpen :: r, Some _ => Raise Unmodelled
  | TkClose :: r, Some g => (RGroup g ::.) <$> re_groups None r
  | TkClose :: r, None => Raise (ReError unbalanced_parenthesis)
  end.

Definition re_compile (pattern : text) : res regex :=
  re_lex pattern ≫= re_groups None.

(** A match of [re] at the front of [s]: the captured groups and the number
    of characters matched. *)
Fixpoint re_match (re : regex) (s : text) : option (list text * nat) :=
  match re with
  | [] => Some ([], 0%nat)
  | RChar c :: re' =>
      match s with
      | c' :: s' =>
          if decide (c = c')
          then (λ gn : list text * nat, (gn.1, S gn.2)) <$> re_match re' s'
          else None
      | [] => None
      end
  | RGroup b :: re' =>
      if decide (b `prefix_of` s)
      then (λ gn : list text * nat, (b :: gn.1, (length b + gn.2)%nat))
             <$> re_match re' (drop (length b) s)
      else None
  end.

Inductive tmpl_item := TLit (c : ascii) | TRef (k : nat).
Abbreviation template := (list tmpl_item).

Fixpoint tmpl_parse (r : text) : res template :=
  match r with
  | [] => Ok []
  | c :: r1 =>
      if decide (c = "\"%char) then
        match r1 with
        | [] => Raise (ReError bad_escape)
        | e :: r2 =>
            if decide (e = "n"%char) then (TLit LF ::.) <$> tmpl_parse r2
            else if decide (e = "\"%char) then (TLit e ::.) <$> tmpl_parse r2
            else if decide (e = "0"%char) then
              match r2 with
              | o1 :: o2 :: r3 =>
                  match octal_value o1, octal_value o2 with
                  | Some a, Some b =>
                      (TLit (ascii_of_nat (8 * a + b)) ::.) <$> tmpl_parse r3
                  | _, _ => Raise Unmodelled
                  end
              | _ => Raise Unmodelled
              end
            else if is_digit e then
              match r2 with
              | d :: _ => if is_digit d then Raise Unmodelled
                          else (TRef (nat_of_ascii e - 48) ::.) <$> tmpl_parse r2
              | [] => Ok [TRef (nat_of_ascii e - 48)]
              end
            else if is_letter e then Raise Unmodelled
            else (λ tm, TLit c :: TLit e :: tm) <$> tmpl_parse r2
        end
      else (TLit c ::.) <$> tmpl_parse r1
  end.

Definition is_group (it : re_item) : bool :=
  match it with RGroup _ => true | RChar _ => false end.

Definition group_count (re : regex) : nat := length (List.filter is_group re).

Definition tmpl_refs_ok (n : nat) (tm : template) : bool :=
  forallb (λ it, match it with
                 | TLit _ => true
                 | TRef k => bool_decide (1 ≤ k ≤ n)%nat
                 end) tm.

Definition expand (tm : template) (groups : list text) : text :=
  concat (map (λ it, match it with
                     | TLit c => [c]
                     | TRef k => default [] (groups !! (k - 1)%nat)
                     end) tm).

Definition re_matcher (re : regex) (tm : template) : text → option (text * nat) :=
  λ s, (λ gn : list text * nat, (expand tm gn.1, gn.2)) <$> re_match re s.

(** [re.sub(pattern, repl, string, count)]: [count = 0] (the default) means
    every match.  Pattern and template are compiled before the scan, so a
    malformed one raises whatever the buffer holds. *)
Definition sub_limit (count : Z) : option nat :=
  if decide (count = 0)%Z then None else Some (Z.to_nat count).

Definition re_subn (pattern repl : text) (s : text) (count : Z) : res (text * nat) :=
  re ← re_compile pattern;
  tm ← tmpl_parse repl;
  if tmpl_refs_ok (group_count re) tm
  then Ok (sub_loop (re_matcher re tm) (sub_limit count) s)
  else Raise (ReError invalid_group_reference).

Definition re_sub (pattern repl : text) (s : text) (count : Z) : res text :=
  fst <$> re_subn pattern repl s count.

(** ** The scripts as statement lists

    Both scripts are straight-line code over one variable, [content], the
    files and standard output.  A statement is one of the six shapes the
    sources contain. *)

Record state := State {
  fs : gmap string text;
  content : text;
  stdout : list text
}.

Inductive stmt :=
| OpenRead (path : string)
    (* with open(path, 'r') as f: content = f.read() *)
| Replace (old new : text) (count : Z)
    (* content = content.replace(old, new, count) *)
| ReSub (pattern repl : text) (count : Z)
    (* content = re.sub(pattern, repl, content, count) *)
| SplitIf (sep : text) (n : nat) (body : list text → text)
    (* parts = content.split(sep); if len(parts) >= n: content = body(parts) *)
| OpenWrite (path : string)
    (* with open(path, 'w') as f: f.write(content) *)
| Print (msg : text).

(** The rewriting statements are the rules of a pipeline. *)
Definition is_rule (c : stmt) : bool :=
  match c with
  | Replace _ _ _ | ReSub _ _ _ | SplitIf _ _ _ => true
  | _ => false
  end.

(** The value a rule assigns to [content]. *)
Definition new_content (c : stmt) (s : text) : res text :=
  match c with
  | Replace old new count => Ok (str_replace s old new count)
  | ReSub pattern repl count => re_sub pattern repl s count
  | SplitIf sep n body =>
      match str_split s sep with
      | Some parts => Ok (if decide (n ≤ length parts)%nat then body parts else s)
      | None => Raise ValueError
      end
  | _ => Ok s
  end.

Definition set_content (σ : state) (s : text) : state :=
  State (fs σ) s (stdout σ).

(** One statement when the operating system reports no error and the file
    holds plain text as Python reads it (see [os_exec] below for undecodable
    pages, line-end translation and failing reads, writes and prints). *)
Definition exec (c : stmt) (σ : state) : res state :=
  match c with
  | OpenRead path =>
      match fs σ !! path with
      | Some s => Ok (set_content σ s)
      | None => Raise (FileNotFoundError path)
      end
  | OpenWrite path =>
      Ok (State (<[path := content σ]> (fs σ)) (content σ) (stdout σ))
  | Print msg => Ok (State (fs σ) (content σ) (stdout σ ++ [msg]))
  | _ => set_content σ <$> new_content c (content σ)
  end.

(** How a run ends: all statements done, or an exception nobody catches,
    with the state reached when it was raised. *)
Inductive outcome :=
| Finished (σ : state)
| Uncaught (e : exn) (σ : state).

Fixpoint run (prog : list stmt) (σ : state) : outcome :=
  match prog with
  | [] => Finished σ
  | c :: prog' =>
      match exec c σ with
      | Ok σ' => run prog' σ'
      | Raise e => Uncaught e σ
      end
  end.

Definition last_state (o : outcome) : state :=
  match o with Finished σ | Uncaught _ σ => σ end.

(** The interpreter exits with 0 at the end of the script and with 1 on an
    uncaught exception; neither script calls [sys.exit]. *)
Definition exit_code (o : outcome) : Z :=
  match o with Finished _ => 0%Z | Uncaught _ _ => 1%Z end.

(** ** Files as the operating system has them

    [open(path, 'r')] and [open(path, 'w')] are text-mode files.  Reading
    decodes the bytes strictly and raises [UnicodeDecodeError] on a sequence
    the codec rejects, then turns every [\r\n] and every lone [\r] into
    [\n].  Writing truncates the file when it is opened, turns every [\n]
    into [os.linesep] and stores the bytes in place, so a write that fails
    part-way leaves the bytes stored so far.  Any of the calls can also be
    refused by the operating system.  A [platform] fixes the line separator
    and which byte sequences the codec of the locale accepts; [reply] is what
    the operating system answers to the n-th read, write or print of a run.

    The buffer stays a list of bytes: the codec is one that writes back the
    bytes it has read and keeps ASCII for ASCII only, as UTF-8 and the
    single-byte code pages do.  [stdout] holds the lines whose [print] was
    carried out; a [print] that fails adds nothing. *)

Definition CR : ascii := ascii_of_nat 13.

Definition between (lo hi n : nat) : bool := (lo <=? n)%nat && (n <=? hi)%nat.

Definition continuation (c : ascii) : bool := between 128 191 (nat_of_ascii c).

(** Strict UTF-8 (RFC 3629): no overlong form, no surrogate, nothing above
    U+10FFFF, no truncated sequence. *)
Fixpoint utf8_valid (b : text) : bool :=
  match b with
  | [] => true
  | b0 :: r0 =>
      let n0 := nat_of_ascii b0 in
      if (n0 <? 128)%nat then utf8_valid r0
      else if between 194 223 n0 then
        match r0 with
        | b1 :: r1 => continuation b1 && utf8_valid r1
        | _ => false
        end
      else if between 224 239 n0 then
        match r0 with
        | b1 :: b2 :: r2 =>
            between (if (n0 =? 224)%nat then 160 else 128)
                    (if (n0 =? 237)%nat then 159 else 191) (nat_of_ascii b1)
            && continuation b2 && utf8_valid r2
        | _ => false
        end
      else if between 240 244 n0 then
        match r0 with
        | b1 :: b2 :: b3 :: r3 =>
            between (if (n0 =? 240)%nat then 144 else 128)
                    (if (n0 =? 244)%nat then 143 else 191) (nat_of_ascii b1)
            && continuation b2 && continuation b3 && utf8_valid r3
        | _ => false
        end
      else false
  end.

(** Universal newlines, as [read] applies them. *)
Fixpoint universal_newlines (s : text) : text :=
  match s with
  | [] => []
  | c :: r =>
      if decide (c = CR) then
        LF :: match r with
              | d :: r' => if decide (d = LF) then universal_newlines r'
                           else universal_newlines r
              | [] => []
              end
      else c :: universal_newlines r
  end.

Record platform := Platform {
  linesep : text;
  decodes : text → bool
}.

(** Python on POSIX: UTF-8 and [\n]. *)
Definition posix : platform := Platform [LF] utf8_valid.

(** The bytes [write] stores for a buffer. *)
Definition write_newlines (sys : platform) (s : text) : text :=
  str_replace s [LF] (linesep sys) (-1).

Inductive os_reply :=
| Granted            (* the call works *)
| Denied             (* the call is refused: nothing is read, stored or printed *)
| Broken (k : nat).  (* an opened file takes k bytes at most and then fails *)

Definition granted (r : os_reply) : bool :=
  match r with Granted => true | _ => false end.

(** A page that can be read: present, and accepted by the codec. *)
Definition readable (sys : platform) (σ : state) (path : string) : bool :=
  match fs σ !! path with
  | Some b => decodes sys b
  | None => false
  end.

Definition os_exec (sys : platform) (r : os_reply) (c : stmt) (σ : state) : outcome :=
  match c with
  | OpenRead path =>
      match fs σ !! path with
      | None => Uncaught (FileNotFoundError path) σ
      | Some b =>
          if granted r then
            if decodes sys b
            then Finished (set_content σ (universal_newlines b))
            else Uncaught UnicodeDecodeError σ
          else Uncaught OSError σ
      end
  | OpenWrite path =>
      let data := write_newlines sys (content σ) in
      match r with
      | Granted => Finished (State (<[path := data]> (fs σ)) (content σ) (stdout σ))
      | Denied => Uncaught OSError σ
      | Broken k =>
          Uncaught OSError
            (State (<[path := take k data]> (fs σ)) (content σ) (stdout σ))
      end
  | Print msg =>
      if granted r
      then Finished (State (fs σ) (content σ) (stdout σ ++ [msg]))
      else Uncaught OSError σ
  | _ =>
      match exec c σ with
      | Ok σ' => Finished σ'
      | Raise e => Uncaught e σ
      end
  end.

(** A run under the operating system; [n] counts the reads, writes and
    prints made so far.  The rules touch only the buffer and ask nothing of
    the operating system.  A run stops at the first exception: neither script
    has a [try]. *)
Fixpoint os_run_from (sys : platform) (reply : nat → os_reply) (n : nat)
    (prog : list stmt) (σ : state) : outcome :=
  match prog with
  | [] => Finished σ
  | c :: prog' =>
      match os_exec sys (reply n) c σ with
      | Finished σ' =>
          os_run_from sys reply (if is_rule c then n else S n) prog' σ'
      | Uncaught e σ' => Uncaught e σ'
      end
  end.

Definition os_run (sys : platform) (reply : nat → os_reply)
    (prog : list stmt) (σ : state) : outcome :=
  os_run_from sys reply 0 prog σ.

(** The number of reads, writes and prints in a program. *)
Definition io_count (prog : list stmt) : nat :=
  length (List.filter (λ c, negb (is_rule c)) prog).

(** ** [update_pages.py] *)

Module UpdatePages.

Module Station.

Definition path : string := "src/pages/StationHaulingPage.jsx".

(** line 9: [content = content.replace(old, new)] *)
Definition add_formError_state : stmt :=
  Replace
    (lit "  const [toInput, setToInput] = useState('');\n\n  // Add station to list")
    (lit "  const [toInput, setToInput] = useState('');\n\n  // Form validation error\n  const [formError, setFormError] = useState('');\n\n  // Add station to list")
    (-1).

(** line 15: [content = content.replace(old, new)] *)
Definition addStation_clear_error : stmt :=
  Replace
    (lit "    if (type === 'from') setFromInput('');\n    else setToInput('');\n  }, []);")
    (lit "    if (type === 'from') setFromInput('');\n    else setToInput('');\n    // Clear form error when user makes changes\n    if (formError) setFormError('');\n  }, [formError]);")
    (-1).

(** line 21: [content = content.replace(old, new)] *)
Definition removeStation_clear_error : stmt :=
  Replace
    (lit "      [`${type}Stations`]: prev[`${type}Stations`].filter((s) => s !== station),\n    }));\n  }, []);")
    (lit "      [`${type}Stations`]: prev[`${type}Stations`].filter((s) => s !== station),\n    }));\n    // Clear form error when user makes changes\n    if (formError) setFormError('');\n  }, [formError]);")
    (-1).

(** line 27: [content = content.replace(old, new)] *)
Definition updateForm_clear_error : stmt :=
  Replace
    (lit "  const updateForm = useCallback((key, value) => {\n    setForm((prev) => ({ ...prev, [key]: value }));\n  }, []);")
    (lit "  const updateForm = useCallback((key, value) => {\n    setForm((prev) => ({ ...prev, [key]: value }));\n    // Clear form error when user makes changes\n    if (formError) setFormError('');\n  }, [formError]);")
    (-1).

(** line 33: [content = content.replace(old, new)] *)
Definition replace_alert : stmt :=
  Replace
    (lit "        alert('Please select at least one station for both origin and destination');")
    (lit "        setFormError('Please select at least one station for both origin and destination');")
    (-1).

(** line 39: [content = content.replace(old, new)] *)
Definition clear_on_success : stmt :=
  Replace
    (lit "      if (!fromLocation || !toLocation) {\n        setFormError('Please select at least one station for both origin and destination');\n        return;\n      }\n\n      try {")
    (lit "      if (!fromLocation || !toLocation) {\n        setFormError('Please select at least one station for both origin and destination');\n        return;\n      }\n\n      // Clear form error on valid submission\n      setFormError('');\n\n      try {")
    (-1).

(** line 45: [content = content.replace(old, new)] *)
Definition form_error_ui : stmt :=
  Replace
    (lit "        </GlassmorphicCard>\n\n        {/* Error */}")
    (lit "        </GlassmorphicCard>

        {/* Form Validation Error */}
        {formError && (
          <div
            role=\x22alert\x22
            aria-live=\x22polite\x22
            className=\x22mb-8 p-4 bg-red-500/20 border border-red-500/50 rounded-lg text-red-400\x22
          >
            <strong>Validation Error:</strong> {formError}
          </div>
        )}

        {/* API Error */}")
    (-1).

(** line 64: [content = content.replace(old, new)] *)
Definition api_error_aria : stmt :=
  Replace
    (lit "        {error && (\n          <div className=\x22mb-8 p-4 bg-red-500/20 border border-red-500/50 rounded-lg text-red-400\x22>")
    (lit "        {error && (\n          <div\n            role=\x22alert\x22\n            aria-live=\x22polite\x22\n            className=\x22mb-8 p-4 bg-red-500/20 border border-red-500/50 rounded-lg text-red-400\x22\n          >")
    (-1).

(** line 72 *)
Definition report : stmt := Print (lit "Updated StationHaulingPage.jsx").

Definition rules : list stmt :=
  [add_formError_state;
   addStation_clear_error;
   removeStation_clear_error;
   updateForm_clear_error;
   replace_alert;
   clear_on_success;
   form_error_ui;
   api_error_aria].

Definition pipeline : list stmt :=
  [OpenRead path] ++ rules ++ [OpenWrite path; report].

End Station.

Module Region.

Definition path : string := "src/pages/RegionHaulingPage.jsx".

(** line 79: [content = content.replace(old, new)] *)
Definition add_formError_state : stmt :=
  Replace
    (lit "  });\n\n  // Get nearby regions")
    (lit "  });\n\n  // Form validation error\n  const [formError, setFormError] = useState('');\n\n  // Get nearby regions")
    (-1).

(** line 85: [content = content.replace(old, new)] *)
Definition updateForm_clear_error : stmt :=
  Replace
    (lit "  const updateForm = useCallback((key, value) => {\n    setForm((prev) => ({ ...prev, [key]: value }));\n\n    // Reset toRegion when switching to nearby\n    if (key === 'useNearby' && value) {\n      setForm((prev) => ({ ...prev, toRegion: 'Nearby Regions' }));\n    }\n  }, []);")
    (lit "  const updateForm = useCallback((key, value) => {\n    setForm((prev) => ({ ...prev, [key]: value }));\n    // Clear form error when user makes changes\n    if (formError) setFormError('');\n\n    // Reset toRegion when switching to nearby\n    if (key === 'useNearby' && value) {\n      setForm((prev) => ({ ...prev, toRegion: 'Nearby Regions' }));\n    }\n  }, [formError]);")
    (-1).

(** line 91: [content = content.replace(old, new)] *)
Definition replace_origin_alert : stmt :=
  Replace
    (lit "        alert('Please select a valid origin region');")
    (lit "        setFormError('Please select a valid origin region');")
    (-1).

(** line 95: [content = content.replace(old, new)] *)
Definition replace_destination_alert : stmt :=
  Replace
    (lit "          alert('Please select a valid destination region');")
    (lit "          setFormError('Please select a valid destination region');")
    (-1).

(** line 101: [content = content.replace(old, new)] *)
Definition clear_on_success : stmt :=
  Replace
    (lit "      const fromParam = `${form.fromPreference}-${fromId}`;")
    (lit "      // Clear form error on valid submission\n      setFormError('');\n\n      const fromParam = `${form.fromPreference}-${fromId}`;")
    (-1).

(** line 107: [content = content.replace(old, new)] *)
Definition form_error_ui : stmt :=
  Replace
    (lit "        </GlassmorphicCard>\n\n        {/* Error */}")
    (lit "        </GlassmorphicCard>

        {/* Form Validation Error */}
        {formError && (
          <div
            role=\x22alert\x22
            aria-live=\x22polite\x22
            className=\x22mb-8 p-4 bg-red-500/20 border border-red-500/50 rounded-lg text-red-400\x22
          >
            <strong>Validation Error:</strong> {formError}
          </div>
        )}

        {/* API Error */}")
    (-1).

(** line 126: [content = content.replace(old, new)] *)
Definition api_error_aria : stmt :=
  Replace
    (lit "        {error && (\n          <div className=\x22mb-8 p-4 bg-red-500/20 border border-red-500/50 rounded-lg text-red-400\x22>")
    (lit "        {error && (\n          <div\n            role=\x22alert\x22\n            aria-live=\x22polite\x22\n            className=\x22mb-8 p-4 bg-red-500/20 border border-red-500/50 rounded-lg text-red-400\x22\n          >")
    (-1).

(** line 134 *)
Definition report : stmt := Print (lit "Updated RegionHaulingPage.jsx").

Definition rules : list stmt :=
  [add_formError_state;
   updateForm_clear_error;
   replace_origin_alert;
   replace_destination_alert;
   clear_on_success;
   form_error_ui;
   api_error_aria].

Definition pipeline : list stmt :=
  [OpenRead path] ++ rules ++ [OpenWrite path; report].

End Region.

(** line 135 *)
Definition all_updated : stmt := Print (lit "All files updated successfully!").

(** The whole of [update_pages.py]. *)
Definition script : list stmt :=
  Station.pipeline ++ Region.pipeline ++ [all_updated].

End UpdatePages.

(** ** [final_update.py] *)

Module FinalUpdate.

Module Station.

Definition path : string := "src/pages/StationHaulingPage.jsx".

(** line 9: [content = re.sub(pattern, repl, content, count=1)] *)
Definition add_formError_state : stmt :=
  ReSub
    (raw "(  const \[toInput, setToInput\] = useState\(''\);)\n")
    (raw "\1\n\n  // Form validation error\n  const [formError, setFormError] = useState('');\n")
    1.

(** line 17: [content = re.sub(pattern, repl, content, count=1)] *)
Definition addStation_callback : stmt :=
  ReSub
    (raw "(    if \(type === 'from'\) setFromInput\(''\);\n    else setToInput\(''\);)\n(  }, \[\]);)")
    (raw "\1\n    // Clear form error when user makes changes\n    if (formError) setFormError('');\n\2")
    1.

(** line 23: [content = content.replace(old, new, 1)] *)
Definition addStation_deps : stmt :=
  Replace
    (lit "  }, []);  // addStation")
    (lit "  }, [formError]);")
    1.

(** line 26: [content = re.sub(pattern, repl, content, count=1)] *)
Definition removeStation_callback : stmt :=
  ReSub
    (raw "(      \[`\$\{type\}Stations`\]: prev\[`\$\{type\}Stations`\]\.filter\(\(s\) => s !== station\),\n    }\)\);)\n(  }, \[\]);)")
    (raw "\1\n    // Clear form error when user makes changes\n    if (formError) setFormError('');\n\2")
    1.

(** lines 33-36:
    [parts = content.split(sep)]
    [if len(parts) >= 3: parts[1] = parts[1] + new_deps; content = parts[0] + parts[2]] *)
Definition removeStation_fallback : stmt :=
  SplitIf (lit "  }, []);") 3
    (λ parts,
       let parts := <[1%nat := parts !!! 1%nat ++ lit "  }, [formError]);"]> parts in
       parts !!! 0%nat ++ parts !!! 2%nat).

(** line 39: [content = re.sub(pattern, repl, content, count=1)] *)
Definition updateForm_callback : stmt :=
  ReSub
    (raw "(  const updateForm = useCallback\(\(key, value\) => \{\n    setForm\(\(prev\) => \(\{ \.\.\.prev, \[key\]: value \}\)\);)\n(  }, \[\]);)")
    (raw "\1\n    // Clear form error when user makes changes\n    if (formError) setFormError('');\n\2")
    1.

(** lines 46-49:
    [parts = content.split(sep)]
    [if len(parts) >= 4: parts[2] = parts[2] + new_deps;
       content = parts[0] + parts[1] + new_deps + parts[3]] *)
Definition updateForm_fallback : stmt :=
  SplitIf (lit "  }, []);") 4
    (λ parts,
       let parts := <[2%nat := parts !!! 2%nat ++ lit "  }, [formError]);"]> parts in
       parts !!! 0%nat ++ parts !!! 1%nat ++ lit "  }, [formError]);" ++ parts !!! 3%nat).

(** line 52: [content = content.replace(old, new)] *)
Definition replace_alert : stmt :=
  Replace
    (lit "alert('Please select at least one station for both origin and destination')")
    (lit "setFormError('Please select at least one station for both origin and destination')")
    (-1).

(** line 58: [content = re.sub(pattern, repl, content)] *)
Definition clear_on_valid_submission : stmt :=
  ReSub
    (raw "(      if \(!fromLocation \|\| !toLocation\) \{\n        setFormError\('Please select at least one station for both origin and destination'\);\n        return;\n      \})\n\n(      try \{)")
    (raw "\1\n\n      // Clear form error on valid submission\n      setFormError('');\n\n\2")
    0.

(** line 65: [content = re.sub(pattern, repl, content)] *)
Definition form_validation_error_ui : stmt :=
  ReSub
    (raw "(        </GlassmorphicCard>\n\n        \{/\* Error \*/\})\n        \{error && \(")
    (raw "\1

        {/* Form Validation Error */}
        {formError && (
          <div
            role=\042alert\042
            aria-live=\042polite\042
            className=\042mb-8 p-4 bg-red-500/20 border border-red-500/50 rounded-lg text-red-400\042
          >
            <strong>Validation Error:</strong> {formError}
          </div>
        )}

        {/* API Error */}
        {error && (")
    0.

(** line 86: [content = re.sub(pattern, repl, content)] *)
Definition api_error_aria : stmt :=
  ReSub
    (raw "(\{error && \(\n          )<div className=\x22mb-8 p-4 bg-red-500/20 border border-red-500/50 rounded-lg text-red-400\x22>")
    (raw "\1<div
            role=\042alert\042
            aria-live=\042polite\042
            className=\042mb-8 p-4 bg-red-500/20 border border-red-500/50 rounded-lg text-red-400\042
          >")
    0.

(** line 99 *)
Definition report : stmt := Print (lit "✓ Updated StationHaulingPage.jsx").

Definition rules : list stmt :=
  [add_formError_state;
   addStation_callback;
   addStation_deps;
   removeStation_callback;
   removeStation_fallback;
   updateForm_callback;
   updateForm_fallback;
   replace_alert;
   clear_on_valid_submission;
   form_validation_error_ui;
   api_error_aria].

Definition pipeline : list stmt :=
  [OpenRead path] ++ rules ++ [OpenWrite path; report].

End Station.

Module Region.

Definition path : string := "src/pages/RegionHaulingPage.jsx".

(** line 106: [content = re.sub(pattern, repl, content, count=1)] *)
Definition add_formError_state : stmt :=
  ReSub
    (raw "(  }\);)\n\n(  // Get nearby regions)")
    (raw "\1\n\n  // Form validation error\n  const [formError, setFormError] = useState('');\n\n\2")
    1.

(** line 114: [content = re.sub(pattern, repl, content, count=1)] *)
Definition updateForm_callback : stmt :=
  ReSub
    (raw "(  const updateForm = useCallback\(\(key, value\) => \{\n    setForm\(\(prev\) => \(\{ \.\.\.prev, \[key\]: value \}\)\);)\n\n(    // Reset toRegion)")
    (raw "\1\n    // Clear form error when user makes changes\n    if (formError) setFormError('');\n\n\2")
    1.

(** line 120: [content = re.sub(pattern, repl, content, count=1)] *)
Definition updateForm_reset : stmt :=
  ReSub
    (raw "(      setForm\(\(prev\) => \(\{ \.\.\.prev, toRegion: 'Nearby Regions' \}\)\);\n    \}\n  }, \[\]);)")
    (raw "\1")
    1.

(** line 126: [content = content.replace(old, new, 1)] *)
Definition updateForm_deps : stmt :=
  Replace
    (lit "  }, []);  // updateForm Region")
    (lit "  }, [formError]);")
    1.

(** lines 128-133:
    [parts = content.split(sep)]
    [if len(parts) >= 2: parts[0] = parts[0] + new_deps;
       content = sep.join(parts[1:]); content = parts[0] + content] *)
Definition updateForm_fallback : stmt :=
  SplitIf (lit "  }, []);") 2
    (λ parts,
       let parts := <[0%nat := parts !!! 0%nat ++ lit "  }, [formError]);"]> parts in
       let content := str_join (lit "  }, []);") (drop 1 parts) in
       parts !!! 0%nat ++ content).

(** line 136: [content = content.replace(old, new)] *)
Definition replace_origin_alert : stmt :=
  Replace
    (lit "alert('Please select a valid origin region')")
    (lit "setFormError('Please select a valid origin region')")
    (-1).

(** line 140: [content = content.replace(old, new)] *)
Definition replace_destination_alert : stmt :=
  Replace
    (lit "alert('Please select a valid destination region')")
    (lit "setFormError('Please select a valid destination region')")
    (-1).

(** line 146: [content = re.sub(pattern, repl, content, count=1)] *)
Definition clear_on_valid_submission : stmt :=
  ReSub
    (raw "(\n      const fromParam = )")
    (raw "\n      // Clear form error on valid submission\n      setFormError('');\n\n\1")
    1.

(** line 154: [content = re.sub(pattern, repl, content)] *)
Definition form_validation_error_ui : stmt :=
  ReSub
    (raw "(        </GlassmorphicCard>\n\n        \{/\* Error \*/\})\n        \{error && \(")
    (raw "\1

        {/* Form Validation Error */}
        {formError && (
          <div
            role=\042alert\042
            aria-live=\042polite\042
            className=\042mb-8 p-4 bg-red-500/20 border border-red-500/50 rounded-lg text-red-400\042
          >
            <strong>Validation Error:</strong> {formError}
          </div>
        )}

        {/* API Error */}
        {error && (")
    0.

(** line 175: [content = re.sub(pattern, repl, content)] *)
Definition api_error_aria : stmt :=
  ReSub
    (raw "(\{error && \(\n          )<div className=\x22mb-8 p-4 bg-red-500/20 border border-red-500/50 rounded-lg text-red-400\x22>")
    (raw "\1<div
            role=\042alert\042
            aria-live=\042polite\042
            className=\042mb-8 p-4 bg-red-500/20 border border-red-500/50 rounded-lg text-red-400\042
          >")
    0.

(** line 188 *)
Definition report : stmt := Print (lit "✓ Updated RegionHaulingPage.jsx").

Definition rules : list stmt :=
  [add_formError_state;
   updateForm_callback;
   updateForm_reset;
   updateForm_deps;
   updateForm_fallback;
   replace_origin_alert;
   replace_destination_alert;
   clear_on_valid_submission;
   form_validation_error_ui;
   api_error_aria].

Definition pipeline : list stmt :=
  [OpenRead path] ++ rules ++ [OpenWrite path; report].

End Region.

(** line 189 *)
Definition all_applied : stmt := Print (lit "\n✅ All changes applied successfully!").

(** The whole of [final_update.py]. *)
Definition script : list stmt :=
  Station.pipeline ++ Region.pipeline ++ [all_applied].

End FinalUpdate.

(** ** What a rule looks for and what it puts in place

    A pattern of the fragment matches one text only: its characters with the
    parentheses removed.  Each group captures its own body. *)

Definition re_text (re : regex) : text :=
  concat (map (λ it, match it with RChar c => [c] | RGroup b => b end) re).

Definition re_captures (re : regex) : list text :=
  omap (λ it, match it with RChar _ => None | RGroup b => Some b end) re.

(** The text a rule searches the buffer for. *)
Definition rule_matcher (c : stmt) : option text :=
  match c with
  | Replace old _ _ => Some old
  | ReSub pattern _ _ =>
      match re_compile pattern with
      | Ok re => Some (re_text re)
      | Raise _ => None
      end
  | SplitIf sep _ _ => Some sep
  | _ => None
  end.

(** The text a substitution rule puts in place of a match. *)
Definition rule_replacement (c : stmt) : option text :=
  match c with
  | Replace _ new _ => Some new
  | ReSub pattern repl _ =>
      match re_compile pattern, tmpl_parse repl with
      | Ok re, Ok tm => Some (expand tm (re_captures re))
      | _, _ => None
      end
  | _ => None
  end.

(** The bound on the number of replacements ([None]: no bound). *)
Definition rule_limit (c : stmt) : option (option nat) :=
  match c with
  | Replace _ _ count => Some (replace_limit count)
  | ReSub _ _ count => Some (sub_limit count)
  | _ => None
  end.

(** A rule compiles when executing it raises nothing; this does not depend
    on the buffer, so the empty buffer decides it. *)
Definition compiles (c : stmt) : bool :=
  match new_content c [] with Ok _ => true | Raise _ => false end.

(** The number of replacements a substitution rule makes in [s]. *)
Definition replaced (c : stmt) (s : text) : nat :=
  match c with
  | Replace old new count => (str_replace_n s old new count).2
  | ReSub pattern repl count =>
      match re_subn pattern repl s count with
      | Ok r => r.2
      | Raise _ => 0%nat
      end
  | _ => 0%nat
  end.

(** A split rule whose guard asks for at least one separator. *)
Definition guarded (c : stmt) : bool :=
  match c with
  | SplitIf _ n _ => bool_decide (2 ≤ n)
  | _ => true
  end.

(** Every rule of the two scripts. *)
Definition all_rules : list stmt :=
  UpdatePages.Station.rules ++ UpdatePages.Region.rules
  ++ FinalUpdate.Station.rules ++ FinalUpdate.Region.rules.

(** "Replace all non-overlapping matches", said with [split] and [join]:
    cut the buffer at every match and put the replacement between the
    parts. *)
Definition every_match_replaced (s old new : text) : option text :=
  str_join new <$> str_split s old.

(** The buffer after a rule, and after a list of rules in their order; a
    rule that raises leaves the buffer (the run is then over). *)
Definition apply_rule (c : stmt) (s : text) : text :=
  match new_content c s with Ok r => r | Raise _ => s end.

Definition apply_rules (rules : list stmt) (s : text) : text :=
  foldl (λ b c, apply_rule c b) s rules.

(** The four read-rewrite-write pipelines of the two scripts: the file, the
    rules, and the line printed after the write. *)
Definition pipelines : list (string * list stmt * stmt) :=
  [(UpdatePages.Station.path, UpdatePages.Station.rules, UpdatePages.Station.report);
   (UpdatePages.Region.path, UpdatePages.Region.rules, UpdatePages.Region.report);
   (FinalUpdate.Station.path, FinalUpdate.Station.rules, FinalUpdate.Station.report);
   (FinalUpdate.Region.path, FinalUpdate.Region.rules, FinalUpdate.Region.report)].

(** A sufficient test for "replacing every [old] by [new] leaves no [old]
    behind": [old] does not occur in [new], no proper non-empty prefix of
    [old] ends [new], and every suffix of [old] that starts [new] also
    starts [old]. *)
Definition no_rematch {A} `{EqDecision A} (old new : list A) : bool :=
  bool_decide (old ≠ [])
  && bool_decide (length old ≤ length new)%nat
  && negb (occursb old new)
  && forallb (λ k, negb (bool_decide (take k old `suffix_of` new)))
       (seq 1 (length old - 1))
  && forallb (λ k, implb (bool_decide (drop k old `prefix_of` new))
                     (bool_decide (drop k old `prefix_of` old)))
       (seq 0 (S (length old))).

(** The page a pipeline leaves behind, by what was there and by the answers
    to its read and its write. *)
Definition page_after (sys : platform) (rules : list stmt)
    (read write : os_reply) (page : option text) : option text :=
  match page with
  | None => None
  | Some b =>
      if granted read && decodes sys b then
        let data := write_newlines sys (apply_rules rules (universal_newlines b)) in
        match write with
        | Granted => Some data
        | Denied => Some b
        | Broken k => Some (take k data)
        end
      else Some b
  end.

(** * Properties of the built-ins *)

(** Closed facts about the scripts' literals are settled by evaluation. *)
Ltac by_evaluation := vm_compute; reflexivity.

Section str_lemmas.
Context {A : Type} `{EqDecision A}.
Implicit Types s old new sep sub : list A.

Lemma occurs_nil_l s : occurs [] s.
Proof. by exists [], s. Qed.

Lemma occurs_prefix sub s : sub `prefix_of` s → occurs sub s.
Proof. intros [k ->]. by exists [], k. Qed.

Lemma occurs_cons sub c s : occurs sub s → occurs sub (c :: s).
Proof. intros (pre & post & ->). by exists (c :: pre), post. Qed.

Lemma occurs_cons_inv sub c s :
  occurs sub (c :: s) → sub `prefix_of` (c :: s) ∨ occurs sub s.
Proof.
  intros ([|c' pre] & post & Heq); simpl in Heq.
  - left. by exists post.
  - right. injection Heq as -> ->. by exists pre, post.
Qed.

Lemma occursb_spec sub s : occursb sub s = true ↔ occurs sub s.
Proof.
  induction s as [|c s IH]; simpl.
  - destruct (decide (sub `prefix_of` [])) as [Hp|Hp].
    + split; [intros _; by apply occurs_prefix | done].
    + split; [done|]. intros ([|? ?] & post & Heq); [|done].
      destruct Hp. by exists post.
  - destruct (decide (sub `prefix_of` c :: s)) as [Hp|Hp].
    + split; [intros _; by apply occurs_prefix | done].
    + rewrite IH. split; [apply occurs_cons|].
      intros [?|?]%occurs_cons_inv; done.
Qed.


Lemma sub_loop_eq (m : list A → option (list A * nat)) lim s :
  sub_loop m lim s =
    if decide (lim = Some 0) then (s, 0)
    else match m s, s with
         | None, [] => ([], 0)
         | None, c :: s' => let r := sub_loop m lim s' in (c :: r.1, r.2)
         | Some (new, _), [] => (new, 1)
         | Some (new, 0), c :: s' =>
             let r := sub_loop m (pred <$> lim) s' in (new ++ c :: r.1, S r.2)
         | Some (new, S n), c :: s' =>
             let r := sub_loop m (pred <$> lim) (drop n s') in (new ++ r.1, S r.2)
         end.
Proof.
  simp sub_loop. destruct (decide (lim = Some 0)) as [Hl|Hl]; simpl; [done|].
  destruct (m s) as [[new [|k]]|] eqn:Hm, s as [|c s'].
  all: simp sub_loop; rewrite ?Hm; done.
Qed.

Lemma split_loop_eq o sep s :
  split_loop o sep s =
    match s with
    | [] => [[]]
    | c :: s' =>
        if decide ((o :: sep) `prefix_of` (c :: s'))
        then [] :: split_loop o sep (drop (length sep) s')
        else cons_first c (split_loop o sep s')
    end.
Proof.
  destruct s as [|c s']; simp split_loop; [done|].
  destruct (decide (o :: sep `prefix_of` c :: s')); done.
Qed.

(** Induction along the left-to-right scan for [old]: either [old] is at
    the front and the scan jumps over it, or one item is copied. *)
Lemma scan_ind o old (P : list A → Prop) :
  P [] →
  (∀ r, P r → P ((o :: old) ++ r)) →
  (∀ c s, ¬ (o :: old) `prefix_of` (c :: s) → P s → P (c :: s)) →
  ∀ s, P s.
Proof.
  intros Hnil Hhit Hmiss s.
  induction s as [s IH] using (Nat.measure_induction _ length).
  destruct s as [|c s']; [done|].
  destruct (decide ((o :: old) `prefix_of` (c :: s'))) as [[r Hr]|Hno].
  - rewrite Hr. apply Hhit, IH. rewrite Hr, length_app. simpl; lia.
  - apply Hmiss; [done|]. apply IH. simpl; lia.
Qed.

Lemma sub_loop_done (m : list A → option (list A * nat)) s :
  sub_loop m (Some 0) s = (s, 0).
Proof. by rewrite sub_loop_eq. Qed.

Lemma replace_loop_nil old new lim :
  old ≠ [] → sub_loop (literal_match old new) lim [] = ([], 0).
Proof.
  intros Hne. rewrite sub_loop_eq. case_decide; [done|].
  unfold literal_match. case_decide as Hp; [|done].
  apply prefix_nil_inv in Hp. done.
Qed.

Lemma replace_loop_hit old new lim r :
  old ≠ [] → lim ≠ Some 0 →
  sub_loop (literal_match old new) lim (old ++ r) =
    let x := sub_loop (literal_match old new) (pred <$> lim) r in
    (new ++ x.1, S x.2).
Proof.
  intros Hne Hlim. rewrite sub_loop_eq. case_decide; [done|].
  unfold literal_match at 1. case_decide as Hp; [|destruct Hp; by exists r].
  destruct old as [|o old']; [done|]. simpl.
  by rewrite drop_app_length.
Qed.

Lemma replace_loop_miss old new lim c s :
  ¬ old `prefix_of` (c :: s) → lim ≠ Some 0 →
  sub_loop (literal_match old new) lim (c :: s) =
    let x := sub_loop (literal_match old new) lim s in (c :: x.1, x.2).
Proof.
  intros Hno Hlim. rewrite sub_loop_eq. case_decide; [done|].
  unfold literal_match at 1. by case_decide.
Qed.

Lemma sub_loop_no_match (m : list A → option (list A * nat)) lim s :
  (∀ x, x `suffix_of` s → m x = None) → sub_loop m lim s = (s, 0).
Proof.
  induction s as [|c s IH]; intros Hm; rewrite sub_loop_eq.
  - case_decide; [done|]. by rewrite Hm.
  - case_decide; [done|]. rewrite Hm by done. simpl.
    rewrite IH; [done|]. intros x Hx. apply Hm. by apply suffix_cons_r.
Qed.

Lemma occurs_suffix sub x s : sub `prefix_of` x → x `suffix_of` s → occurs sub s.
Proof. intros [k ->] [pre ->]. by exists pre, k. Qed.

Lemma replace_loop_absent old new lim s :
  ¬ occurs old s → sub_loop (literal_match old new) lim s = (s, 0).
Proof.
  intros Hno. apply sub_loop_no_match. intros x Hx.
  unfold literal_match. case_decide; [|done].
  destruct Hno. by eapply occurs_suffix.
Qed.

Lemma sub_loop_ext (m m' : list A → option (list A * nat)) lim s :
  (∀ x, m x = m' x) → sub_loop m lim s = sub_loop m' lim s.
Proof.
  intros Hm. revert lim.
  induction s as [s IH] using (Nat.measure_induction _ length).
  intros lim. rewrite (sub_loop_eq m), (sub_loop_eq m'), <-Hm.
  case_decide; [done|].
  destruct (m s) as [[new [|k]]|], s as [|c s']; simpl; try done.
  all: rewrite IH; [done|]; rewrite ?length_drop; simpl; lia.
Qed.

(** [split] and [join]. *)
Lemma split_loop_nil o sep : split_loop o sep [] = [[]].
Proof. by rewrite split_loop_eq. Qed.

Lemma split_loop_hit o sep r :
  split_loop o sep ((o :: sep) ++ r) = [] :: split_loop o sep r.
Proof.
  rewrite split_loop_eq. simpl.
  case_decide as Hp; [|destruct Hp; by exists r].
  by rewrite drop_app_length.
Qed.

Lemma split_loop_miss o sep c s :
  ¬ (o :: sep) `prefix_of` (c :: s) →
  split_loop o sep (c :: s) = cons_first c (split_loop o sep s).
Proof. intros Hno. rewrite split_loop_eq. by case_decide. Qed.

Lemma split_loop_ne o sep s : split_loop o sep s ≠ [].
Proof.
  rewrite split_loop_eq. destruct s; [done|].
  case_decide; [done|]. by destruct (split_loop o sep s).
Qed.

Lemma str_join_cons sep p ps :
  ps ≠ [] → str_join sep (p :: ps) = p ++ sep ++ str_join sep ps.
Proof. by destruct ps. Qed.

Lemma str_join_cons_first sep c parts :
  parts ≠ [] → str_join sep (cons_first c parts) = c :: str_join sep parts.
Proof. destruct parts as [|p [|q ps]]; done. Qed.

Lemma join_split o sep s : str_join (o :: sep) (split_loop o sep s) = s.
Proof.
  induction s as [|r IH|c s Hno IH] using (scan_ind o sep).
  - by rewrite split_loop_nil.
  - rewrite split_loop_hit, str_join_cons by apply split_loop_ne.
    by rewrite IH.
  - rewrite split_loop_miss, str_join_cons_first by (done || apply split_loop_ne).
    by rewrite IH.
Qed.

Lemma replace_all_join o sep new s :
  sub_loop (literal_match (o :: sep) new) None s =
    (str_join new (split_loop o sep s), pred (length (split_loop o sep s))).
Proof.
  induction s as [|r IH|c s Hno IH] using (scan_ind o sep).
  - by rewrite replace_loop_nil, split_loop_nil.
  - rewrite replace_loop_hit, split_loop_hit by done. simpl fmap.
    rewrite IH. cbv zeta. simpl fst. simpl snd.
    rewrite str_join_cons by apply split_loop_ne. simpl.
    pose proof (split_loop_ne o sep r). by destruct (split_loop o sep r).
  - rewrite replace_loop_miss, split_loop_miss by done.
    rewrite IH. cbv zeta. simpl fst; simpl snd.
    rewrite str_join_cons_first by apply split_loop_ne.
    pose proof (split_loop_ne o sep s). by destruct (split_loop o sep s).
Qed.

Lemma replace_first_join o sep new s :
  sub_loop (literal_match (o :: sep) new) (Some 1) s =
    match split_loop o sep s with
    | p0 :: p1 :: rest => (p0 ++ new ++ str_join (o :: sep) (p1 :: rest), 1)
    | _ => (s, 0)
    end.
Proof.
  induction s as [|r IH|c s Hno IH] using (scan_ind o sep).
  - by rewrite replace_loop_nil, split_loop_nil.
  - rewrite replace_loop_hit, split_loop_hit by done. simpl fmap.
    rewrite sub_loop_done. cbv zeta. simpl fst; simpl snd.
    pose proof (split_loop_ne o sep r) as Hne.
    pose proof (join_split o sep r) as Hj.
    destruct (split_loop o sep r) as [|p1 rest]; [done|]. by rewrite Hj.
  - rewrite replace_loop_miss, split_loop_miss by done.
    rewrite IH. pose proof (join_split o sep s) as Hj.
    destruct (split_loop o sep s) as [|p0 [|p1 rest]]; simpl in *; try done.
Qed.

Lemma split_parts_free o sep s :
  Forall (λ p, ¬ occurs (o :: sep) p) (split_loop o sep s).
Proof.
  induction s as [|r IH|c s Hno IH] using (scan_ind o sep).
  - rewrite split_loop_nil. constructor; [|done].
    intros ([|??] & ? & ?); done.
  - rewrite split_loop_hit. constructor; [|done].
    intros ([|??] & ? & ?); done.
  - rewrite split_loop_miss by done.
    pose proof (join_split o sep s) as Hj.
    pose proof (split_loop_ne o sep s) as Hne.
    destruct (split_loop o sep s) as [|p ps]; [done|].
    apply Forall_cons in IH as [Hp Hps]. simpl. constructor; [|done].
    intros [Hpre|?]%occurs_cons_inv; [|done]. apply Hno.
    rewrite <-Hj. destruct ps; [done|]. simpl.
    by apply prefix_app_r with (l2 := c :: p).
Qed.
End str_lemmas.

Section rematch.
Context {A : Type} `{EqDecision A}.
Implicit Types s old new sep sub : list A.

Lemma prefix_app_split sub x y :
  sub `prefix_of` x ++ y →
  sub `prefix_of` x ∨ ∃ w, w ≠ [] ∧ sub = x ++ w ∧ w `prefix_of` y.
Proof.
  revert sub. induction x as [|c x IH]; intros sub Hp; simpl in *.
  - destruct sub as [|d sub]; [left; apply prefix_nil|].
    right. by exists (d :: sub).
  - destruct sub as [|d sub]; [left; apply prefix_nil|].
    pose proof (prefix_cons_inv_1 _ _ _ _ Hp) as ->.
    apply prefix_cons_inv_2, IH in Hp as [Hp|(w & Hw & -> & Hp)].
    + left. by apply prefix_cons.
    + right. by exists w.
Qed.

Lemma prefix_app_short sub x y :
  sub `prefix_of` x ++ y → length sub ≤ length x → sub `prefix_of` x.
Proof.
  intros [?|(w & Hw & -> & _)]%prefix_app_split Hlen; [done|].
  rewrite length_app in Hlen. destruct w; [done|simpl in Hlen; lia].
Qed.

Lemma occurs_app_inv sub x y :
  occurs sub (x ++ y) →
  occurs sub x ∨ occurs sub y ∨
  ∃ v w, v ≠ [] ∧ w ≠ [] ∧ sub = v ++ w ∧ v `suffix_of` x ∧ w `prefix_of` y.
Proof.
  induction x as [|c x IH]; simpl; [by auto|].
  intros [Hp|Ho]%occurs_cons_inv.
  - change (c :: x ++ y) with ((c :: x) ++ y) in Hp.
    apply prefix_app_split in Hp as [Hp|(w & Hw & -> & Hp)].
    + left. by apply occurs_prefix.
    + right; right. by exists (c :: x), w.
  - destruct (IH Ho) as [?|[?|(v & w & ? & ? & ? & ? & ?)]].
    + left. by apply occurs_cons.
    + by auto.
    + right; right. exists v, w. split_and!; try done. by apply suffix_cons_r.
Qed.

Section conditions.
Context (o : A) (old' new : list A).
Local Abbreviation old := (o :: old').
Hypothesis Hlen : length old ≤ length new.
Hypothesis Hin : ¬ occurs old new.
Hypothesis Hend : ∀ v w, v ≠ [] → w ≠ [] → old = v ++ w → ¬ v `suffix_of` new.
Hypothesis Hstart : ∀ w, w `suffix_of` old → w `prefix_of` new → w `prefix_of` old.

Local Abbreviation out s := (sub_loop (literal_match old new) None s).1.

Lemma replace_all_keeps_front s w :
  w `suffix_of` old → w `prefix_of` out s → w `prefix_of` s.
Proof using Hlen Hstart.
  revert w.
  induction s as [|r IH|c s Hno IH] using (scan_ind o old'); intros w Hw.
  - by rewrite replace_loop_nil.
  - rewrite replace_loop_hit by done. simpl. intros Hp.
    apply (prefix_app_r _ old), Hstart; [done|].
    apply prefix_app_short in Hp; [done|].
    apply suffix_length in Hw. simpl in *. lia.
  - rewrite replace_loop_miss by done. simpl.
    destruct w as [|d w]; [intros; apply prefix_nil|]. intros Hp.
    pose proof (prefix_cons_inv_1 _ _ _ _ Hp) as ->.
    apply prefix_cons, IH; [by eapply suffix_cons_l|].
    by eapply prefix_cons_inv_2.
Qed.

Lemma replace_all_leaves_none s : ¬ occurs old (out s).
Proof using All.
  induction s as [|r IH|c s Hno IH] using (scan_ind o old').
  - rewrite replace_loop_nil by done. simpl.
    intros ([|??] & ? & Heq); done.
  - rewrite replace_loop_hit by done. simpl.
    intros [?|[?|(v & w & Hv & Hw & Heq & Hs & _)]]%occurs_app_inv; [done..|].
    exact (Hend v w Hv Hw Heq Hs).
  - rewrite replace_loop_miss by done. simpl.
    intros [Hp|?]%occurs_cons_inv; [|done]. apply Hno.
    apply replace_all_keeps_front; [done|].
    by rewrite replace_loop_miss.
Qed.
End conditions.

Lemma no_rematch_sound old new s :
  no_rematch old new = true →
  ¬ occurs old (sub_loop (literal_match old new) None s).1.
Proof.
  unfold no_rematch. rewrite !andb_true_iff, !bool_decide_eq_true, negb_true_iff.
  rewrite !forallb_forall.
  intros ((((Hne & Hlen) & Hin) & Hend) & Hstart).
  destruct old as [|o old']; [done|].
  apply replace_all_leaves_none; [done|..].
  - rewrite <-occursb_spec. by rewrite Hin.
  - intros v w Hv Hw Heq Hs.
    assert (v = take (length v) (o :: old')) as Hvt
      by (by rewrite Heq, take_app_length).
    specialize (Hend (length v)). rewrite <-Hvt in Hend.
    rewrite negb_true_iff, bool_decide_eq_false in Hend. apply Hend; [|done].
    apply in_seq. apply (f_equal length) in Heq. rewrite length_app in Heq.
    destruct v, w; simpl in *; try done; lia.
  - intros w [k Hk] Hp.
    assert (w = drop (length k) (o :: old')) as Hwd
      by (by rewrite Hk, drop_app_length).
    assert (In (length k) (seq 0 (S (length (o :: old'))))) as Hmem.
    { apply in_seq. apply (f_equal length) in Hk.
      rewrite length_app in Hk. simpl in *; lia. }
    apply Hstart in Hmem. rewrite <-Hwd in Hmem.
    rewrite (bool_decide_eq_true_2 _ Hp) in Hmem.
    by apply bool_decide_eq_true in Hmem.
Qed.
End rematch.

(** * The fragment of [re] is literal search *)

Lemma prefix_app_drop {A} (b t s : list A) :
  b ++ t `prefix_of` s ↔ b `prefix_of` s ∧ t `prefix_of` drop (length b) s.
Proof.
  split.
  - intros [k ->]. rewrite <-app_assoc, drop_app_length.
    split; [by apply prefix_app_r | by exists k].
  - intros [[k ->] Ht]. rewrite drop_app_length in Ht. by apply prefix_app.
Qed.

Lemma re_text_cons_char c re : re_text (RChar c :: re) = c :: re_text re.
Proof. done. Qed.

Lemma re_text_cons_group b re : re_text (RGroup b :: re) = b ++ re_text re.
Proof. done. Qed.

Lemma re_match_literal re s :
  re_match re s =
    if decide (re_text re `prefix_of` s)
    then Some (re_captures re, length (re_text re)) else None.
Proof.
  revert s. induction re as [|[c|b] re IH]; intros s.
  - rewrite decide_True by apply prefix_nil. done.
  - rewrite re_text_cons_char. cbn [re_match].
    destruct s as [|c' s].
    { rewrite decide_False by apply prefix_nil_not. done. }
    destruct (decide (c = c')) as [->|Hne].
    + rewrite IH.
      destruct (decide (re_text re `prefix_of` s)) as [Hp|Hp].
      * by rewrite decide_True by by apply prefix_cons.
      * rewrite decide_False; [done|]. by intros ?%prefix_cons_inv_2.
    + rewrite decide_False; [done|]. by intros ?%prefix_cons_inv_1.
  - rewrite re_text_cons_group. cbn [re_match].
    destruct (decide (b `prefix_of` s)) as [Hb|Hb].
    + rewrite IH. destruct (decide (re_text re `prefix_of` drop (length b) s)).
      * rewrite decide_True by by apply prefix_app_drop.
        simpl. by rewrite length_app.
      * rewrite decide_False; [done|]. by intros [_ ?]%prefix_app_drop.
    + rewrite decide_False; [done|]. by intros [? _]%prefix_app_drop.
Qed.

Lemma re_matcher_literal re tm s :
  re_matcher re tm s = literal_match (re_text re) (expand tm (re_captures re)) s.
Proof.
  unfold re_matcher, literal_match. rewrite re_match_literal. by case_decide.
Qed.

(** A rule that compiles is a literal scan for its matcher. *)
Lemma rule_is_literal_scan c m new lim s :
  compiles c = true →
  rule_matcher c = Some m → rule_replacement c = Some new →
  rule_limit c = Some lim →
  new_content c s = Ok (sub_loop (literal_match m new) lim s).1
  ∧ replaced c s = (sub_loop (literal_match m new) lim s).2.
Proof.
  destruct c as [|old new' count|pattern repl count| | |]; try done; simpl.
  - intros _ [= <-] [= <-] [= <-]. done.
  - unfold compiles, new_content, re_sub, re_subn.
    destruct (re_compile pattern) as [re|]; [|done]. simpl.
    destruct (tmpl_parse repl) as [tm|]; [|done]. simpl.
    destruct (tmpl_refs_ok (group_count re) tm); [|done]. simpl.
    intros _ [= <-] [= <-] [= <-].
    by rewrite (sub_loop_ext _ _ _ _ (re_matcher_literal re tm)).
Qed.

Lemma split_loop_absent {A} `{EqDecision A} (o : A) sep s :
  ¬ occurs (o :: sep) s → split_loop o sep s = [s].
Proof.
  induction s as [|c s IH]; intros Hno; [by rewrite split_loop_nil|].
  rewrite split_loop_miss, IH; [done|..].
  - intros ?. by apply Hno, occurs_cons.
  - intros ?. by apply Hno, occurs_prefix.
Qed.

Lemma new_content_absent c m s :
  compiles c = true → guarded c = true →
  rule_matcher c = Some m → ¬ occurs m s →
  new_content c s = Ok s ∧ replaced c s = 0.
Proof.
  intros Hc Hg Hm Hno.
  destruct c as [|old new count|pattern repl count|sep n body| |]; try done.
  - injection Hm as ->. simpl. unfold str_replace, str_replace_n.
    by rewrite replace_loop_absent.
  - destruct (rule_replacement (ReSub pattern repl count)) as [new|] eqn:Hr.
    + destruct (rule_is_literal_scan _ m new (sub_limit count) s Hc Hm Hr eq_refl)
        as [-> ->].
      by rewrite replace_loop_absent.
    + exfalso. revert Hc Hr. unfold compiles, new_content, re_sub, re_subn. simpl.
      destruct (re_compile pattern); [|done]. simpl.
      by destruct (tmpl_parse repl).
  - injection Hm as ->. simpl in *. apply bool_decide_eq_true in Hg.
    destruct m as [|o sep]; [by destruct Hno; apply occurs_nil_l|]. simpl.
    rewrite split_loop_absent by done. simpl.
    rewrite decide_False by lia. done.
Qed.

(** * Runs *)

Lemma run_app p q σ :
  run (p ++ q) σ =
    match run p σ with
    | Finished σ' => run q σ'
    | Uncaught e σ' => Uncaught e σ'
    end.
Proof.
  revert σ. induction p as [|c p IH]; intros σ; simpl; [done|].
  by destruct (exec c σ).
Qed.

Lemma exec_rule_frame c σ σ' :
  is_rule c = true → exec c σ = Ok σ' →
  fs σ' = fs σ ∧ stdout σ' = stdout σ.
Proof.
  destruct c; try done; intros _; unfold exec.
  all: destruct (new_content _ _); simpl; intros [= <-]; done.
Qed.

Lemma run_rules_frame rules σ :
  Forall (λ c, is_rule c = true) rules →
  fs (last_state (run rules σ)) = fs σ
  ∧ stdout (last_state (run rules σ)) = stdout σ.
Proof.
  intros Hrules. revert σ.
  induction Hrules as [|c rules Hc _ IH]; intros σ; simpl; [done|].
  destruct (exec c σ) as [σ'|e] eqn:He; simpl; [|done].
  destruct (exec_rule_frame _ _ _ Hc He) as [<- <-]. by apply IH.
Qed.

(** * The rules of the two scripts *)

Lemma all_rules_sound c :
  c ∈ all_rules → is_Some (rule_matcher c) →
  compiles c = true ∧ guarded c = true.
Proof.
  intros Hin Hm.
  assert (forallb (λ c, implb (bool_decide (is_Some (rule_matcher c)))
                          (compiles c && guarded c)) all_rules = true) as Hall
    by by_evaluation.
  rewrite forallb_forall in Hall. apply list_elem_of_In, Hall in Hin.
  rewrite (bool_decide_eq_true_2 _ Hm) in Hin. by apply andb_true_iff in Hin.
Qed.

Lemma occurs_split_length {A} `{EqDecision A} (o : A) sep s :
  occurs (o :: sep) s ↔ 2 ≤ length (split_loop o sep s).
Proof.
  split.
  - intros Ho. pose proof (split_parts_free o sep s) as Hfree.
    pose proof (join_split o sep s) as Hj.
    destruct (split_loop o sep s) as [|p [|q ps]]; simpl in *; [|  |lia].
    + subst s. destruct Ho as ([|??] & ? & ?); done.
    + subst p. by apply Forall_cons in Hfree as [? _].
  - intros Hlen. apply occursb_spec.
    destruct (occursb (o :: sep) s) eqn:Hb; [done|].
    rewrite split_loop_absent in Hlen; [simpl in Hlen; lia|].
    intros Ho%occursb_spec. congruence.
Qed.

(** A replacement that begins with its own matcher is found again. *)
Lemma replace_first_rematches {A} `{EqDecision A} (old extra s : list A) :
  old ≠ [] →
  (sub_loop (literal_match old (old ++ extra)) (Some 1) s).2 = 1 →
  (sub_loop (literal_match old (old ++ extra)) (Some 1)
     (sub_loop (literal_match old (old ++ extra)) (Some 1) s).1).2 = 1.
Proof.
  destruct old as [|o old']; [done|]. intros _.
  rewrite (replace_first_join o old' _ s).
  destruct (split_loop o old' s) as [|p0 [|p1 rest]] eqn:Hs; try done.
  intros _. cbn [fst snd].
  set (out := p0 ++ _).
  assert (occurs (o :: old') out) as Ho.
  { exists p0, (extra ++ str_join (o :: old') (p1 :: rest)).
    subst out. by rewrite <-!app_assoc. }
  apply occurs_split_length in Ho.
  rewrite (replace_first_join o old' _ out).
  by destruct (split_loop o old' out) as [|q0 [|q1 qs]]; simpl in *; try lia.
Qed.

Lemma str_count_split {A} `{EqDecision A} (o : A) sep s :
  S (str_count s (o :: sep)) = length (split_loop o sep s).
Proof.
  unfold str_count, str_replace_n. change (replace_limit (-1)) with (@None nat).
  rewrite replace_all_join. simpl.
  pose proof (split_loop_ne o sep s). by destruct (split_loop o sep s).
Qed.

Lemma str_join_length_ge {A} (sep p : list A) ps :
  length p ≤ length (str_join sep (p :: ps)).
Proof. destruct ps; simpl; rewrite ?length_app; lia. Qed.

Lemma pipelines_shape path rules report :
  (path, rules, report) ∈ pipelines →
  Forall (λ c, is_rule c = true) rules ∧ ∃ msg, report = Print msg.
Proof.
  unfold pipelines. rewrite !elem_of_cons, elem_of_nil.
  intros [H|[H|[H|[H|[]]]]]; injection H as -> -> ->.
  all: split; [|by eexists].
  all: apply Forall_forall; intros c Hc; apply list_elem_of_In in Hc.
  all: revert c Hc; apply forallb_forall; by_evaluation.
Qed.

Lemma read_rules_frame path rules σ :
  Forall (λ c, is_rule c = true) rules →
  fs (last_state (run (OpenRead path :: rules) σ)) = fs σ
  ∧ stdout (last_state (run (OpenRead path :: rules) σ)) = stdout σ.
Proof.
  intros Hrules. simpl. destruct (fs σ !! path) as [s|]; simpl; [|done].
  by destruct (run_rules_frame rules (set_content σ s) Hrules).
Qed.

Lemma every_rule_limit c lim :
  c ∈ all_rules → rule_limit c = Some lim → lim = None ∨ lim = Some 1.
Proof.
  intros Hin Hlim.
  assert (forallb (λ c, match rule_limit c with
                        | Some None | Some (Some 1) | None => true
                        | _ => false
                        end) all_rules = true) as Hall
    by by_evaluation.
  rewrite forallb_forall in Hall. apply list_elem_of_In, Hall in Hin.
  rewrite Hlim in Hin. destruct lim as [[|[|?]]|]; auto; done.
Qed.

(** * Whole runs of the two scripts *)

(** Whether a rule raises does not depend on the buffer. *)
Lemma new_content_total c s :
  compiles c = true → new_content c s = Ok (apply_rule c s).
Proof.
  unfold compiles, apply_rule.
  destruct c as [|old new count|pattern repl count|sep n body| |]; try done.
  - unfold new_content, re_sub, re_subn.
    destruct (re_compile pattern) as [re|]; [|done]. simpl.
    destruct (tmpl_parse repl) as [tm|]; [|done]. simpl.
    by destruct (tmpl_refs_ok (group_count re) tm).
  - unfold new_content. by destruct sep.
Qed.

Lemma run_rules_compile rules σ :
  Forall (λ c, is_rule c = true ∧ compiles c = true) rules →
  run rules σ = Finished (set_content σ (apply_rules rules (content σ))).
Proof.
  intros Hrules. revert σ.
  induction Hrules as [|c rules [Hr Hc] _ IH]; intros σ.
  - by destruct σ.
  - cbn [run apply_rules foldl].
    assert (exec c σ = Ok (set_content σ (apply_rule c (content σ)))) as ->.
    { destruct c; try done; unfold exec; by rewrite new_content_total. }
    by rewrite IH.
Qed.

Lemma run_pipeline path rules msg σ :
  Forall (λ c, is_rule c = true ∧ compiles c = true) rules →
  run ([OpenRead path] ++ rules ++ [OpenWrite path; Print msg]) σ =
    match fs σ !! path with
    | Some s =>
        Finished (State (<[path := apply_rules rules s]> (fs σ))
                    (apply_rules rules s) (stdout σ ++ [msg]))
    | None => Uncaught (FileNotFoundError path) σ
    end.
Proof.
  intros Hrules. cbn [app run exec].
  destruct (fs σ !! path) as [s|]; [|done].
  by rewrite run_app, run_rules_compile.
Qed.

Lemma update_pages_rules_compile :
  Forall (λ c, is_rule c = true ∧ compiles c = true) UpdatePages.Station.rules
  ∧ Forall (λ c, is_rule c = true ∧ compiles c = true) UpdatePages.Region.rules.
Proof.
  split; apply Forall_forall; intros c Hc; apply list_elem_of_In in Hc.
  all: apply andb_true_iff; revert c Hc; apply forallb_forall.
  all: by_evaluation.
Qed.

(** What [update_pages.py] does, by the files it finds. *)
Lemma update_pages_run σ :
  run UpdatePages.script σ =
    match fs σ !! UpdatePages.Station.path with
    | None => Uncaught (FileNotFoundError UpdatePages.Station.path) σ
    | Some a =>
        let a' := apply_rules UpdatePages.Station.rules a in
        let σ1 := State (<[UpdatePages.Station.path := a']> (fs σ)) a'
                    (stdout σ ++ [lit "Updated StationHaulingPage.jsx"]) in
        match fs σ !! UpdatePages.Region.path with
        | None => Uncaught (FileNotFoundError UpdatePages.Region.path) σ1
        | Some b =>
            let b' := apply_rules UpdatePages.Region.rules b in
            Finished (State (<[UpdatePages.Region.path := b']> (fs σ1)) b'
                        (stdout σ ++ [lit "Updated StationHaulingPage.jsx";
                                      lit "Updated RegionHaulingPage.jsx";
                                      lit "All files updated successfully!"]))
        end
    end.
Proof.
  destruct update_pages_rules_compile as [HS HR].
  unfold UpdatePages.script. rewrite run_app.
  unfold UpdatePages.Station.pipeline, UpdatePages.Station.report.
  rewrite run_pipeline by done.
  destruct (fs σ !! UpdatePages.Station.path) as [a|]; [|done].
  rewrite run_app.
  unfold UpdatePages.Region.pipeline, UpdatePages.Region.report.
  rewrite run_pipeline by done. cbn [fs stdout].
  rewrite lookup_insert_ne by done.
  destruct (fs σ !! UpdatePages.Region.path) as [b|]; [|done].
  cbn [run exec UpdatePages.all_updated fs content stdout].
  by rewrite <-!app_assoc.
Qed.

(** What [final_update.py] does: the pattern of its second [re.sub] (line 18)
    closes a parenthesis it never opened, so [re] raises before any match is
    tried. *)
Lemma final_update_run σ :
  run FinalUpdate.script σ =
    match fs σ !! FinalUpdate.Station.path with
    | None => Uncaught (FileNotFoundError FinalUpdate.Station.path) σ
    | Some a =>
        Uncaught (ReError unbalanced_parenthesis)
          (set_content σ (apply_rule FinalUpdate.Station.add_formError_state a))
    end.
Proof.
  unfold FinalUpdate.script, FinalUpdate.Station.pipeline, FinalUpdate.Station.rules.
  cbn [app run]. cbn [exec].
  destruct (fs σ !! FinalUpdate.Station.path) as [a|]; [|done].
  assert (compiles FinalUpdate.Station.add_formError_state = true) as Hc
    by by_evaluation.
  assert (∀ s, exec FinalUpdate.Station.add_formError_state s
               = Ok (set_content s (apply_rule FinalUpdate.Station.add_formError_state (content s)))) as ->.
  { intros s. unfold exec, FinalUpdate.Station.add_formError_state.
    fold FinalUpdate.Station.add_formError_state. by rewrite new_content_total. }
  assert (∀ s, exec FinalUpdate.Station.addStation_callback s
               = Raise (ReError unbalanced_parenthesis)) as ->; [|done].
  intros s. unfold exec, FinalUpdate.Station.addStation_callback, new_content, re_sub, re_subn.
  match goal with |- context [re_compile ?p] =>
    assert (re_compile p = Raise (ReError unbalanced_parenthesis)) as ->
      by by_evaluation
  end. done.
Qed.

(** With both pages readable, update_pages.py stores the rewritten buffer in
    each page and prints its three lines. *)
Lemma update_pages_always_writes σ a b :
  fs σ !! UpdatePages.Station.path = Some a →
  fs σ !! UpdatePages.Region.path = Some b →
  ∃ σ', run UpdatePages.script σ = Finished σ'
    ∧ fs σ' = <[UpdatePages.Region.path := apply_rules UpdatePages.Region.rules b]>
                (<[UpdatePages.Station.path := apply_rules UpdatePages.Station.rules a]>
                   (fs σ))
    ∧ stdout σ' = stdout σ ++ [lit "Updated StationHaulingPage.jsx";
                               lit "Updated RegionHaulingPage.jsx";
                               lit "All files updated successfully!"].
Proof.
  intros Ha Hb. rewrite update_pages_run, Ha, Hb. by eexists.
Qed.

(** Rules that find nothing leave the buffer as it is, so a page in which no
    matcher occurs is stored back unchanged. *)
Lemma apply_rules_absent rules s :
  Forall (λ c, compiles c = true ∧ guarded c = true
               ∧ ∃ m, rule_matcher c = Some m ∧ ¬ occurs m s) rules →
  apply_rules rules s = s.
Proof.
  induction 1 as [|c rules (Hc & Hg & m & Hm & Hno) _ IH]; [done|].
  cbn [apply_rules foldl]. unfold apply_rule at 2.
  by destruct (new_content_absent c m s Hc Hg Hm Hno) as [-> _].
Qed.


(** * Runs under the operating system *)

Lemma os_run_from_app sys reply n p q σ :
  os_run_from sys reply n (p ++ q) σ =
    match os_run_from sys reply n p σ with
    | Finished σ' => os_run_from sys reply (n + io_count p) q σ'
    | Uncaught e σ' => Uncaught e σ'
    end.
Proof.
  revert n σ. induction p as [|c p IH]; intros n σ.
  - simpl. by rewrite Nat.add_0_r.
  - cbn [app os_run_from].
    destruct (os_exec sys (reply n) c σ) as [σ'|e σ']; [|done].
    rewrite IH. unfold io_count. cbn [List.filter].
    destruct (is_rule c); cbn [negb length]; [done|].
    by rewrite Nat.add_succ_r.
Qed.

(** The rules run as they do in [run], whatever the operating system
    answers. *)
Lemma os_run_from_rules sys reply n rules σ :
  Forall (λ c, is_rule c = true) rules →
  os_run_from sys reply n rules σ = run rules σ ∧ io_count rules = 0.
Proof.
  intros Hrules. revert σ.
  induction Hrules as [|c rules Hc _ IH]; intros σ; [done|].
  cbn [os_run_from run]. unfold io_count. cbn [List.filter]. rewrite Hc.
  cbn [negb]. fold (io_count rules).
  assert (os_exec sys (reply n) c σ
          = match exec c σ with Ok σ' => Finished σ' | Raise e => Uncaught e σ end)
    as -> by (by destruct c).
  destruct (exec c σ) as [σ'|e]; [|by destruct (IH σ)].
  apply IH.
Qed.

(** One read-rules-write-print pipeline under the operating system. *)
Lemma os_pipeline sys reply n path rules msg σ :
  Forall (λ c, is_rule c = true) rules →
  os_run_from sys reply n ([OpenRead path] ++ rules ++ [OpenWrite path; Print msg]) σ =
    match os_exec sys (reply n) (OpenRead path) σ with
    | Uncaught e σ' => Uncaught e σ'
    | Finished σ1 =>
        match run rules σ1 with
        | Uncaught e σ' => Uncaught e σ'
        | Finished σ2 =>
            match os_exec sys (reply (S n)) (OpenWrite path) σ2 with
            | Uncaught e σ' => Uncaught e σ'
            | Finished σ3 => os_exec sys (reply (S (S n))) (Print msg) σ3
            end
        end
    end.
Proof.
  intros Hrules. cbn [app os_run_from is_rule].
  destruct (os_exec sys (reply n) (OpenRead path) σ) as [σ1|e σ1]; [|done].
  rewrite os_run_from_app.
  destruct (os_run_from_rules sys reply (S n) rules σ1 Hrules) as [-> ->].
  destruct (run rules σ1) as [σ2|e σ2]; [|done].
  rewrite Nat.add_0_r. cbn [os_run_from is_rule].
  destruct (os_exec sys (reply (S n)) (OpenWrite path) σ2) as [σ3|e σ3]; [|done].
  by destruct (os_exec sys (reply (S (S n))) (Print msg) σ3).
Qed.

(** The same for rules that never raise, spelled out. *)
Lemma os_pipeline_compiled sys reply n path rules msg σ :
  Forall (λ c, is_rule c = true ∧ compiles c = true) rules →
  os_run_from sys reply n ([OpenRead path] ++ rules ++ [OpenWrite path; Print msg]) σ =
    match fs σ !! path with
    | None => Uncaught (FileNotFoundError path) σ
    | Some b =>
        if granted (reply n) then
          if decodes sys b then
            let t := apply_rules rules (universal_newlines b) in
            match reply (S n) with
            | Granted =>
                if granted (reply (S (S n)))
                then Finished (State (<[path := write_newlines sys t]> (fs σ)) t
                                 (stdout σ ++ [msg]))
                else Uncaught OSError
                       (State (<[path := write_newlines sys t]> (fs σ)) t (stdout σ))
            | Denied => Uncaught OSError (State (fs σ) t (stdout σ))
            | Broken k =>
                Uncaught OSError
                  (State (<[path := take k (write_newlines sys t)]> (fs σ)) t
                     (stdout σ))
            end
          else Uncaught UnicodeDecodeError σ
        else Uncaught OSError σ
    end.
Proof.
  intros Hrules. rewrite os_pipeline by (eapply Forall_impl; [done|]; by intros ? [? ?]).
  cbn [os_exec]. destruct (fs σ !! path) as [b|]; [|done].
  destruct (granted (reply n)); [|done].
  destruct (decodes sys b); [|done].
  rewrite run_rules_compile by done. cbn [set_content content fs stdout].
  by destruct (reply (S n)).
Qed.

Lemma io_count_pipeline path rules msg :
  Forall (λ c, is_rule c = true) rules →
  io_count ([OpenRead path] ++ rules ++ [OpenWrite path; Print msg]) = 3.
Proof.
  intros Hrules. unfold io_count. rewrite !List.filter_app, !length_app.
  assert (List.filter (λ c, negb (is_rule c)) rules = []) as ->.
  { induction Hrules as [|c rules Hc _ IH]; [done|].
    cbn [List.filter]. by rewrite Hc. }
  done.
Qed.

(** Line ends that need no translation. *)
Lemma universal_newlines_plain s : CR ∉ s → universal_newlines s = s.
Proof.
  induction s as [|c s IH]; [done|]. intros Hno.
  apply not_elem_of_cons in Hno as [Hc Hs]. cbn [universal_newlines].
  rewrite decide_False by done. by rewrite IH.
Qed.

Lemma replace_by_itself {A} `{EqDecision A} (o : A) old' lim s :
  (sub_loop (literal_match (o :: old') (o :: old')) lim s).1 = s.
Proof.
  revert lim.
  induction s as [|r IH|c s Hno IH] using (scan_ind o old'); intros lim.
  - by rewrite replace_loop_nil.
  - destruct (decide (lim = Some 0)) as [->|Hlim]; [by rewrite sub_loop_done|].
    rewrite replace_loop_hit by done. cbn zeta. cbn [fst]. by rewrite IH.
  - destruct (decide (lim = Some 0)) as [->|Hlim]; [by rewrite sub_loop_done|].
    rewrite replace_loop_miss by done. cbn zeta. cbn [fst]. by rewrite IH.
Qed.

Lemma write_newlines_lf sys s : linesep sys = [LF] → write_newlines sys s = s.
Proof.
  intros Hsep. unfold write_newlines, str_replace, str_replace_n.
  rewrite Hsep. apply replace_by_itself.
Qed.

(** What a pipeline whose rules never raise leaves behind. *)
Lemma os_pipeline_outcome sys reply n path rules msg σ :
  Forall (λ c, is_rule c = true ∧ compiles c = true) rules →
  let o := os_run_from sys reply n
             ([OpenRead path] ++ rules ++ [OpenWrite path; Print msg]) σ in
  let ok := readable sys σ path && granted (reply n)
            && granted (reply (S n)) && granted (reply (S (S n))) in
  (if ok
   then ∃ b, fs σ !! path = Some b
          ∧ o = Finished
                  (State (<[path := write_newlines sys
                                      (apply_rules rules (universal_newlines b))]> (fs σ))
                     (apply_rules rules (universal_newlines b))
                     (stdout σ ++ [msg]))
   else ∃ e σ', o = Uncaught e σ' ∧ stdout σ' = stdout σ)
  ∧ (∀ q, q ≠ path → fs (last_state o) !! q = fs σ !! q).
Proof.
  intros Hrules o ok. subst o ok. rewrite os_pipeline_compiled by done.
  unfold readable.
  destruct (fs σ !! path) as [b|]; cbn [andb]; [|by eauto].
  destruct (decodes sys b), (granted (reply n)); cbn [andb]; try by eauto.
  destruct (reply (S n)); cbn [granted andb last_state fs].
  - destruct (granted (reply (S (S n)))); cbn [last_state fs].
    + split; [by eauto|]. intros q Hq. by rewrite lookup_insert_ne.
    + split; [by eauto|]. intros q Hq. by rewrite lookup_insert_ne.
  - by eauto.
  - split; [by eauto|]. intros q Hq. by rewrite lookup_insert_ne.
Qed.

(** update_pages.py under the operating system, pipeline by pipeline. *)
Lemma os_update_pages_split sys reply σ :
  os_run sys reply UpdatePages.script σ =
    match os_run_from sys reply 0 UpdatePages.Station.pipeline σ with
    | Uncaught e σ' => Uncaught e σ'
    | Finished σ1 =>
        match os_run_from sys reply 3 UpdatePages.Region.pipeline σ1 with
        | Uncaught e σ' => Uncaught e σ'
        | Finished σ2 => os_exec sys (reply 6) UpdatePages.all_updated σ2
        end
    end.
Proof.
  destruct update_pages_rules_compile as [HS HR].
  unfold os_run, UpdatePages.script. rewrite os_run_from_app.
  destruct (os_run_from sys reply 0 UpdatePages.Station.pipeline σ) as [σ1|e σ1];
    [|done].
  unfold UpdatePages.Station.pipeline at 1, UpdatePages.Station.report.
  rewrite io_count_pipeline
    by (eapply Forall_impl; [exact HS|]; by intros ? [? ?]).
  rewrite os_run_from_app. change (0 + 3) with 3.
  destruct (os_run_from sys reply 3 UpdatePages.Region.pipeline σ1)
    as [σ2|e σ2]; [|done].
  unfold UpdatePages.Region.pipeline, UpdatePages.Region.report.
  rewrite io_count_pipeline
    by (eapply Forall_impl; [exact HR|]; by intros ? [? ?]).
  cbn [os_run_from is_rule UpdatePages.all_updated Nat.add].
  by destruct (os_exec sys (reply 6) _ σ2).
Qed.



(** Reading a page changes neither the files nor what was printed. *)
Lemma os_read_frame sys r path σ :
  fs (last_state (os_exec sys r (OpenRead path) σ)) = fs σ
  ∧ stdout (last_state (os_exec sys r (OpenRead path) σ)) = stdout σ.
Proof.
  cbn [os_exec]. destruct (fs σ !! path) as [b|]; [|done].
  by destruct (granted r), (decodes sys b).
Qed.

Lemma os_read_rules sys reply path rules σ :
  Forall (λ c, is_rule c = true) rules →
  os_run sys reply ([OpenRead path] ++ rules) σ =
    match os_exec sys (reply 0) (OpenRead path) σ with
    | Finished σ1 => run rules σ1
    | Uncaught e σ' => Uncaught e σ'
    end.
Proof.
  intros Hrules. unfold os_run. cbn [app os_run_from is_rule].
  destruct (os_exec sys (reply 0) (OpenRead path) σ) as [σ1|e σ1]; [|done].
  by destruct (os_run_from_rules sys reply 1 rules σ1 Hrules) as [-> _].
Qed.

Lemma os_read_rules_frame sys reply path rules σ :
  Forall (λ c, is_rule c = true) rules →
  fs (last_state (os_run sys reply ([OpenRead path] ++ rules) σ)) = fs σ.
Proof.
  intros Hrules. rewrite os_read_rules by done.
  destruct (os_read_frame sys (reply 0) path σ) as [Hfs _].
  destruct (os_exec sys (reply 0) (OpenRead path) σ) as [σ1|e σ1]; [|done].
  destruct (run_rules_frame rules σ1 Hrules) as [-> _]. exact Hfs.
Qed.

(** The two pipelines of update_pages.py. *)
Lemma os_station_outcome sys reply σ :
  let o := os_run_from sys reply 0 UpdatePages.Station.pipeline σ in
  let ok := readable sys σ UpdatePages.Station.path && granted (reply 0)
            && granted (reply 1) && granted (reply 2) in
  (if ok
   then ∃ a, fs σ !! UpdatePages.Station.path = Some a
          ∧ o = Finished
                  (State (<[UpdatePages.Station.path :=
                              write_newlines sys
                                (apply_rules UpdatePages.Station.rules
                                   (universal_newlines a))]> (fs σ))
                     (apply_rules UpdatePages.Station.rules (universal_newlines a))
                     (stdout σ ++ [lit "Updated StationHaulingPage.jsx"]))
   else ∃ e σ', o = Uncaught e σ' ∧ stdout σ' = stdout σ)
  ∧ (∀ q, q ≠ UpdatePages.Station.path → fs (last_state o) !! q = fs σ !! q).
Proof.
  exact (os_pipeline_outcome sys reply 0 UpdatePages.Station.path
           UpdatePages.Station.rules _ σ (proj1 update_pages_rules_compile)).
Qed.

Lemma os_region_outcome sys reply σ :
  let o := os_run_from sys reply 3 UpdatePages.Region.pipeline σ in
  let ok := readable sys σ UpdatePages.Region.path && granted (reply 3)
            && granted (reply 4) && granted (reply 5) in
  (if ok
   then ∃ b, fs σ !! UpdatePages.Region.path = Some b
          ∧ o = Finished
                  (State (<[UpdatePages.Region.path :=
                              write_newlines sys
                                (apply_rules UpdatePages.Region.rules
                                   (universal_newlines b))]> (fs σ))
                     (apply_rules UpdatePages.Region.rules (universal_newlines b))
                     (stdout σ ++ [lit "Updated RegionHaulingPage.jsx"]))
   else ∃ e σ', o = Uncaught e σ' ∧ stdout σ' = stdout σ)
  ∧ (∀ q, q ≠ UpdatePages.Region.path → fs (last_state o) !! q = fs σ !! q).
Proof.
  exact (os_pipeline_outcome sys reply 3 UpdatePages.Region.path
           UpdatePages.Region.rules _ σ (proj2 update_pages_rules_compile)).
Qed.

(** What update_pages.py does under the operating system: the run ends at the
    first of its seven reads, writes and prints that fails. *)
Lemma os_update_pages_run sys reply σ :
  let okS := readable sys σ UpdatePages.Station.path && granted (reply 0)
             && granted (reply 1) && granted (reply 2) in
  let okR := readable sys σ UpdatePages.Region.path && granted (reply 3)
             && granted (reply 4) && granted (reply 5) in
  let o := os_run sys reply UpdatePages.script σ in
  (exit_code o = 0%Z ↔ okS && okR && granted (reply 6) = true)
  ∧ stdout (last_state o) =
      stdout σ ++
        (if okS
         then lit "Updated StationHaulingPage.jsx"
              :: (if okR
                  then lit "Updated RegionHaulingPage.jsx"
                       :: (if granted (reply 6)
                           then [lit "All files updated successfully!"]
                           else [])
                  else [])
         else [])
  ∧ (okS && okR && granted (reply 6) = true →
     ∃ a b, fs σ !! UpdatePages.Station.path = Some a
       ∧ fs σ !! UpdatePages.Region.path = Some b
       ∧ o = Finished
               (State (<[UpdatePages.Region.path :=
                           write_newlines sys
                             (apply_rules UpdatePages.Region.rules
                                (universal_newlines b))]>
                         (<[UpdatePages.Station.path :=
                              write_newlines sys
                                (apply_rules UpdatePages.Station.rules
                                   (universal_newlines a))]> (fs σ)))
                  (apply_rules UpdatePages.Region.rules (universal_newlines b))
                  (stdout σ ++ [lit "Updated StationHaulingPage.jsx";
                                lit "Updated RegionHaulingPage.jsx";
                                lit "All files updated successfully!"]))).
Proof.
  intros okS okR o. subst o. rewrite os_update_pages_split.
  destruct (os_station_outcome sys reply σ) as [HoS HfS]. cbn zeta in HoS, HfS.
  fold okS in HoS. destruct okS.
  2:{ destruct HoS as (e & σ' & -> & Hout). cbn [andb exit_code last_state].
      rewrite Hout, app_nil_r. split_and!; [split|..]; done. }
  destruct HoS as (a & Ha & HoS). rewrite HoS in HfS |- *.
  cbn [last_state fs] in HfS.
  match type of HoS with _ = Finished ?s => set (σ1 := s) in * end.
  destruct (os_region_outcome sys reply σ1) as [HoR HfR]. cbn zeta in HoR, HfR.
  assert (readable sys σ1 UpdatePages.Region.path
          = readable sys σ UpdatePages.Region.path) as Hrd.
  { unfold readable. subst σ1. cbn [fs]. by rewrite lookup_insert_ne. }
  rewrite Hrd in HoR. fold okR in HoR. destruct okR.
  2:{ destruct HoR as (e & σ' & -> & Hout). cbn [andb exit_code last_state].
      rewrite Hout. split_and!; [split|..]; done. }
  destruct HoR as (b & Hb & ->). cbn [andb os_exec UpdatePages.all_updated].
  assert (fs σ !! UpdatePages.Region.path = Some b) as Hb'.
  { subst σ1. cbn [fs] in Hb. by rewrite lookup_insert_ne in Hb. }
  destruct (granted (reply 6)); cbn [exit_code last_state stdout fs content].
  - split_and!; [split; done|subst σ1; cbn [stdout]; by rewrite <-!app_assoc|].
    intros _. exists a, b. split_and!; [exact Ha|exact Hb'|].
    subst σ1. cbn [fs stdout]. by rewrite <-!app_assoc.
  - split_and!; [split; done|subst σ1; cbn [stdout]; by rewrite <-!app_assoc|done].
Qed.

(** The rules of final_update.py's first pipeline: the pattern of the second
    [re.sub] does not compile. *)
Lemma final_update_rules_raise σ :
  run FinalUpdate.Station.rules σ =
    Uncaught (ReError unbalanced_parenthesis)
      (set_content σ (apply_rule FinalUpdate.Station.add_formError_state (content σ))).
Proof.
  unfold FinalUpdate.Station.rules. cbn [run].
  assert (compiles FinalUpdate.Station.add_formError_state = true) as Hc
    by by_evaluation.
  assert (∀ s, exec FinalUpdate.Station.add_formError_state s
               = Ok (set_content s (apply_rule FinalUpdate.Station.add_formError_state (content s)))) as ->.
  { intros s. unfold exec, FinalUpdate.Station.add_formError_state.
    fold FinalUpdate.Station.add_formError_state. by rewrite new_content_total. }
  assert (∀ s, exec FinalUpdate.Station.addStation_callback s
               = Raise (ReError unbalanced_parenthesis)) as ->; [|done].
  intros s. unfold exec, FinalUpdate.Station.addStation_callback, new_content, re_sub, re_subn.
  match goal with |- context [re_compile ?p] =>
    assert (re_compile p = Raise (ReError unbalanced_parenthesis)) as ->
      by by_evaluation
  end. done.
Qed.


(** On a system whose line end is the line feed, with every operation granted
    and pages that decode and hold no carriage return, the two scripts run as
    [run] says. *)
Lemma os_exec_plain sys c σ :
  linesep sys = [LF] →
  (∀ path b, c = OpenRead path → fs σ !! path = Some b →
             decodes sys b = true ∧ CR ∉ b) →
  os_exec sys Granted c σ
  = match exec c σ with Ok σ' => Finished σ' | Raise e => Uncaught e σ end.
Proof.
  intros Hsep Hplain. destruct c as [path|path| | | |]; try done.
  - cbn [os_exec exec granted]. destruct (fs σ !! path) as [b|] eqn:Hb; [|done].
    destruct (Hplain path b eq_refl Hb) as [-> Hcr]. cbn.
    by rewrite universal_newlines_plain.
  - cbn [os_exec exec]. by rewrite write_newlines_lf.
Qed.

Lemma os_pipeline_plain sys reply n path rules msg σ :
  Forall (λ c, is_rule c = true ∧ compiles c = true) rules →
  linesep sys = [LF] →
  reply n = Granted → reply (S n) = Granted → reply (S (S n)) = Granted →
  (∀ b, fs σ !! path = Some b → decodes sys b = true ∧ CR ∉ b) →
  os_run_from sys reply n ([OpenRead path] ++ rules ++ [OpenWrite path; Print msg]) σ
  = run ([OpenRead path] ++ rules ++ [OpenWrite path; Print msg]) σ.
Proof.
  intros Hrules Hsep H0 H1 H2 Hplain.
  rewrite os_pipeline_compiled, run_pipeline by done.
  destruct (fs σ !! path) as [b|]; [|done].
  destruct (Hplain b eq_refl) as [-> Hcr]. rewrite H0, H1, H2. cbn [granted].
  cbn zeta. by rewrite write_newlines_lf, universal_newlines_plain.
Qed.

Lemma update_pages_os_run_plain sys reply σ :
  linesep sys = [LF] →
  (∀ i, i < 7 → reply i = Granted) →
  (∀ path b, path ∈ [UpdatePages.Station.path; UpdatePages.Region.path] →
             fs σ !! path = Some b → decodes sys b = true ∧ CR ∉ b) →
  os_run sys reply UpdatePages.script σ = run UpdatePages.script σ.
Proof.
  intros Hsep Hreply Hplain. destruct update_pages_rules_compile as [HS HR].
  rewrite os_update_pages_split. unfold UpdatePages.script. rewrite run_app.
  unfold UpdatePages.Station.pipeline at 1 2, UpdatePages.Station.report.
  rewrite os_pipeline_plain; try done; try (apply Hreply; lia).
  2:{ intros b. apply Hplain. apply list_elem_of_here. }
  rewrite run_pipeline by done.
  destruct (fs σ !! UpdatePages.Station.path) as [a|]; [|done].
  rewrite run_app.
  unfold UpdatePages.Region.pipeline at 1 2, UpdatePages.Region.report.
  rewrite os_pipeline_plain; try done; try (apply Hreply; lia).
  2:{ intros b. cbn [fs]. rewrite lookup_insert_ne by done.
      apply Hplain. apply list_elem_of_further, list_elem_of_here. }
  destruct (run _ _) as [σ2|e σ2]; [|done].
  cbn [os_exec run exec UpdatePages.all_updated]. by rewrite Hreply by lia.
Qed.

Lemma final_update_os_run_plain sys reply σ :
  reply 0 = Granted →
  (∀ b, fs σ !! FinalUpdate.Station.path = Some b → decodes sys b = true ∧ CR ∉ b) →
  os_run sys reply FinalUpdate.script σ = run FinalUpdate.script σ.
Proof.
  intros Hreply Hplain. rewrite final_update_run.
  unfold os_run, FinalUpdate.script. rewrite os_run_from_app.
  unfold FinalUpdate.Station.pipeline, FinalUpdate.Station.report.
  rewrite os_pipeline.
  2:{ apply Forall_forall. intros c Hc. apply list_elem_of_In in Hc.
      revert c Hc. apply forallb_forall. by_evaluation. }
  cbn [os_exec]. rewrite Hreply. cbn [granted].
  destruct (fs σ !! FinalUpdate.Station.path) as [a|]; [|done].
  destruct (Hplain a eq_refl) as [-> Hcr].
  rewrite final_update_rules_raise. cbn [set_content content fs stdout].
  by rewrite universal_newlines_plain.
Qed.

Lemma os_pipeline_page sys reply n path rules msg σ :
  Forall (λ c, is_rule c = true ∧ compiles c = true) rules →
  fs (last_state (os_run_from sys reply n
                    ([OpenRead path] ++ rules ++ [OpenWrite path; Print msg]) σ))
    !! path
  = page_after sys rules (reply n) (reply (S n)) (fs σ !! path).
Proof.
  intros Hrules. rewrite os_pipeline_compiled by done. unfold page_after.
  destruct (fs σ !! path) as [b|] eqn:Hb; [|done].
  destruct (granted (reply n)), (decodes sys b); cbn [andb last_state]; try done.
  destruct (reply (S n)); cbn [last_state fs]; [|done|by rewrite lookup_insert_eq].
  destruct (granted (reply (S (S n)))); cbn [last_state fs];
    by rewrite lookup_insert_eq.
Qed.

Lemma os_update_pages_station_page sys reply σ :
  fs (last_state (os_run sys reply UpdatePages.script σ)) !! UpdatePages.Station.path
  = page_after sys UpdatePages.Station.rules (reply 0) (reply 1)
      (fs σ !! UpdatePages.Station.path).
Proof.
  destruct update_pages_rules_compile as [HS HR].
  rewrite <-(os_pipeline_page sys reply 0 _ _ (lit "Updated StationHaulingPage.jsx") σ HS).
  rewrite os_update_pages_split.
  change ([OpenRead UpdatePages.Station.path] ++ UpdatePages.Station.rules ++ _)
    with UpdatePages.Station.pipeline.
  destruct (os_run_from sys reply 0 UpdatePages.Station.pipeline σ) as [σ1|e σ1];
    [|done].
  destruct (os_region_outcome sys reply σ1) as [_ HfR]. cbn zeta in HfR.
  specialize (HfR UpdatePages.Station.path). cbn [last_state].
  rewrite <-HfR by done.
  destruct (os_run_from sys reply 3 UpdatePages.Region.pipeline σ1) as [σ2|e σ2];
    [|done].
  cbn [os_exec UpdatePages.all_updated]. by destruct (granted (reply 6)).
Qed.

Lemma os_update_pages_region_page sys reply σ :
  readable sys σ UpdatePages.Station.path && granted (reply 0)
    && granted (reply 1) && granted (reply 2) = true →
  fs (last_state (os_run sys reply UpdatePages.script σ)) !! UpdatePages.Region.path
  = page_after sys UpdatePages.Region.rules (reply 3) (reply 4)
      (fs σ !! UpdatePages.Region.path).
Proof.
  intros Hok. destruct update_pages_rules_compile as [HS HR].
  rewrite os_update_pages_split.
  destruct (os_station_outcome sys reply σ) as [HoS _]. cbn zeta in HoS.
  rewrite Hok in HoS. destruct HoS as (a & Ha & ->).
  match goal with |- context [os_run_from _ _ 3 _ ?s] => set (σ1 := s) end.
  assert (fs σ !! UpdatePages.Region.path = fs σ1 !! UpdatePages.Region.path) as ->.
  { subst σ1. cbn [fs]. by rewrite lookup_insert_ne. }
  rewrite <-(os_pipeline_page sys reply 3 _ _ (lit "Updated RegionHaulingPage.jsx") σ1 HR).
  change ([OpenRead UpdatePages.Region.path] ++ UpdatePages.Region.rules ++ _)
    with UpdatePages.Region.pipeline.
  destruct (os_run_from sys reply 3 UpdatePages.Region.pipeline σ1) as [σ2|e σ2];
    [|done].
  cbn [os_exec UpdatePages.all_updated]. by destruct (granted (reply 6)).
Qed.

(** * The claims *)

(** C1, counterexample: the formError insertion of final_update.py, applied
    to its own output on the one-line buffer, finds its matcher again and
    inserts a second declaration. *)
Lemma rerun_formError_counterexample :
  let rule := FinalUpdate.Station.add_formError_state in
  let buffer := lit "  const [toInput, setToInput] = useState('');\n" in
  let once := lit "  const [toInput, setToInput] = useState('');\n\n  // Form validation error\n  const [formError, setFormError] = useState('');\n" in
  new_content rule buffer = Ok once
  ∧ replaced rule once ≠ 0
  ∧ new_content rule once ≠ Ok once
  ∧ (∃ twice, new_content rule once = Ok twice
       ∧ str_count twice (lit "const [formError, setFormError]") = 2).
Proof.
  intros rule buffer once. split_and!.
  - by_evaluation.
  - vm_compute. discriminate.
  - vm_compute. discriminate.
  - eexists. split; by_evaluation.
Qed.

(** C1, as amended: a rule of the scripts whose matcher does not occur in
    the buffer replaces nothing and returns the buffer as it is; the
    formError insertion of update_pages.py never finds its matcher in its
    own output, on any buffer, so applying it a second time replaces nothing
    and inserts nothing; the insertion of final_update.py keeps its matcher
    at the front of its replacement and so finds it again. *)
Theorem rerun_without_match_is_noop :
  (∀ c m s, c ∈ all_rules → rule_matcher c = Some m → ¬ occurs m s →
     new_content c s = Ok s ∧ replaced c s = 0)
  ∧ (∀ rule s,
       rule ∈ [UpdatePages.Station.add_formError_state;
               UpdatePages.Region.add_formError_state] →
       ∃ out, new_content rule s = Ok out
         ∧ new_content rule out = Ok out ∧ replaced rule out = 0)
  ∧ (∀ s out,
       let rule := FinalUpdate.Station.add_formError_state in
       new_content rule s = Ok out → replaced rule s = 1 →
       replaced rule out = 1).
Proof.
  split_and!.
  - intros c m s Hin Hm Hno.
    destruct (all_rules_sound c Hin) as [Hc Hg]; [by eexists|].
    by apply new_content_absent with m.
  - intros rule s Hin.
    assert (∃ m r, rule = Replace m r (-1) ∧ no_rematch m r = true) as (m & r & -> & Hnr).
    { apply elem_of_cons in Hin as [->|Hin]; [|apply list_elem_of_singleton in Hin as ->].
      - do 2 eexists; split; [reflexivity|]. by_evaluation.
      - do 2 eexists; split; [reflexivity|]. by_evaluation. }
    eexists. split; [reflexivity|].
    simpl. unfold str_replace, str_replace_n. simpl replace_limit.
    rewrite replace_loop_absent by by apply no_rematch_sound. done.
  - intros s out rule.
    assert (∃ m extra, m ≠ [] ∧ rule_matcher rule = Some m
              ∧ rule_replacement rule = Some (m ++ extra)) as (m & extra & Hne & Hm & Hr).
    { exists (lit "  const [toInput, setToInput] = useState('');\n"),
        (lit "\n  // Form validation error\n  const [formError, setFormError] = useState('');\n").
      split_and!; [done|by_evaluation..]. }
    assert (compiles rule = true) as Hc by by_evaluation.
    destruct (rule_is_literal_scan rule _ _ (Some 1) s Hc Hm Hr eq_refl) as [-> ->].
    intros [= <-].
    destruct (rule_is_literal_scan rule _ _ (Some 1)
                (sub_loop (literal_match m (m ++ extra)) (Some 1) s).1 Hc Hm Hr eq_refl)
      as [_ ->].
    by apply replace_first_rematches.
Qed.

Lemma rerun_without_match_is_noop_witness :
  let rule := UpdatePages.Station.add_formError_state in
  let buffer := lit "  const [toInput, setToInput] = useState('');\n\n  // Add station to list\n" in
  rule ∈ [UpdatePages.Station.add_formError_state;
          UpdatePages.Region.add_formError_state]
  ∧ ∃ out, new_content rule buffer = Ok out
      ∧ new_content rule out = Ok out ∧ replaced rule out = 0.
Proof.
  intros rule buffer.
  assert (rule ∈ [UpdatePages.Station.add_formError_state;
                  UpdatePages.Region.add_formError_state]) as Hin
    by apply list_elem_of_here.
  split; [done|].
  exact (proj1 (proj2 rerun_without_match_is_noop) rule buffer Hin).
Defined.

(** C2: on every buffer that holds the delimiter at least three times, the
    removeStation fallback of final_update.py sets the buffer to
    parts[0] + parts[2], dropping the first two delimiters, the part between
    them and everything from the third delimiter on; the updateForm fallback
    sets it to parts[0] + parts[1] + the new dependency list + parts[3],
    dropping the first delimiter, parts[2] and everything after parts[3].
    Both results are strictly shorter than the buffer. *)
Theorem fallbacks_lose_text (s : text) :
  let sep := lit "  }, []);" in
  let deps := lit "  }, [formError]);" in
  3 ≤ str_count s sep →
  ∃ p0 p1 p2 p3 rest,
    str_split s sep = Some (p0 :: p1 :: p2 :: p3 :: rest)
    ∧ s = p0 ++ sep ++ p1 ++ sep ++ p2 ++ sep ++ str_join sep (p3 :: rest)
    ∧ new_content FinalUpdate.Station.removeStation_fallback s = Ok (p0 ++ p2)
    ∧ new_content FinalUpdate.Station.updateForm_fallback s
        = Ok (p0 ++ p1 ++ deps ++ p3)
    ∧ length (p0 ++ p2) < length s
    ∧ length (p0 ++ p1 ++ deps ++ p3) < length s.
Proof.
  intros sep deps.
  unfold FinalUpdate.Station.removeStation_fallback,
    FinalUpdate.Station.updateForm_fallback.
  fold sep. fold deps.
  assert (length deps = 18) as Hdeps by by_evaluation.
  assert (∃ o sep', sep = o :: sep' ∧ length sep = 9) as (o & sep' & Hsep & Hlen)
    by (do 2 eexists; split; by_evaluation).
  clearbody sep deps. subst sep. intros Hcount.
  pose proof (str_count_split o sep' s) as Hparts.
  pose proof (join_split o sep' s) as Hjoin.
  simpl new_content. unfold str_split.
  destruct (split_loop o sep' s) as [|p0 [|p1 [|p2 [|p3 rest]]]];
    simpl in Hparts; try lia.
  exists p0, p1, p2, p3, rest.
  assert (s = p0 ++ (o :: sep') ++ p1 ++ (o :: sep') ++ p2 ++ (o :: sep')
                ++ str_join (o :: sep') (p3 :: rest)) as Hs.
  { rewrite <-Hjoin at 1. reflexivity. }
  rewrite !decide_True by (simpl; lia).
  pose proof (f_equal length Hs) as Hl. rewrite !length_app, !Hlen in Hl.
  pose proof (str_join_length_ge (o :: sep') p3 rest).
  split_and!; try done; rewrite !length_app, ?Hdeps; lia.
Qed.

Lemma fallbacks_lose_text_witness :
  let s := lit "a  }, []);b  }, []);c  }, []);d" in
  3 ≤ str_count s (lit "  }, []);")
  ∧ new_content FinalUpdate.Station.removeStation_fallback s = Ok (lit "ac")
  ∧ new_content FinalUpdate.Station.updateForm_fallback s
      = Ok (lit "ab  }, [formError]);d").
Proof.
  intros s.
  assert (3 ≤ str_count s (lit "  }, []);")) as Hcount
    by (vm_compute; lia).
  split; [done|].
  destruct (fallbacks_lose_text s Hcount)
    as (p0 & p1 & p2 & p3 & rest & Hsplit & _ & Hrm & Hup & _).
  vm_compute in Hsplit. injection Hsplit as <- <- <- <- <-.
  split; [exact Hrm | exact Hup].
Defined.

(** C3, counterexample: the Station page holds one [alert] call and the
    operating system stops the write of update_pages.py after twelve bytes
    (a full disk, say).  [open(path, 'w')] has emptied the page by then, so
    it is left with the first twelve bytes of the new text, neither the old
    page nor the new one; when the write fails before its first byte the page
    is left empty. *)
Lemma half_written_page_counterexample :
  let page := lit "        alert('Please select at least one station for both origin and destination');\n" in
  let σ := State {[UpdatePages.Station.path := page]} [] [] in
  let stops_after (k n : nat) := if (n =? 1)%nat then Broken k else Granted in
  fs (last_state (os_run posix (stops_after 12) UpdatePages.Station.pipeline σ))
    !! UpdatePages.Station.path = Some (lit "        setF")
  ∧ fs (last_state (os_run posix (stops_after 0) UpdatePages.Station.pipeline σ))
    !! UpdatePages.Station.path = Some []
  ∧ exit_code (os_run posix (stops_after 12) UpdatePages.Station.pipeline σ) = 1%Z.
Proof.
  intros page σ stops_after. split_and!; by_evaluation.
Qed.

(** C3, as amended: in each of the four pipelines the files are as they were
    after the read and after every rule, however far the run gets and whatever
    the operating system answers; only the one write that follows the last
    rule changes a file, and only the page of the pipeline.  A finished
    pipeline has stored the whole buffer the rules produced.  A pipeline
    stopped by an exception has left the page as it was, or holding a
    beginning of that buffer: the write is not all-or-nothing. *)
Theorem file_written_only_after_rules
    (sys : platform) (reply : nat → os_reply)
    (path : string) (rules : list stmt) (report : stmt) (σ : state) :
  (path, rules, report) ∈ pipelines →
  let pipeline := [OpenRead path] ++ rules ++ [OpenWrite path; report] in
  (∀ k, k ≤ S (length rules) →
     fs (last_state (os_run sys reply (take k pipeline) σ)) = fs σ)
  ∧ match os_run sys reply pipeline σ with
    | Finished σ' =>
        ∃ σr, os_run sys reply ([OpenRead path] ++ rules) σ = Finished σr
          ∧ fs σ' = <[path := write_newlines sys (content σr)]> (fs σ)
    | Uncaught _ σ' =>
        fs σ' = fs σ
        ∨ ∃ σr k, os_run sys reply ([OpenRead path] ++ rules) σ = Finished σr
            ∧ fs σ' = <[path := take k (write_newlines sys (content σr))]> (fs σ)
    end.
Proof.
  intros [Hrules [msg ->]]%pipelines_shape pipeline. split.
  - intros k Hk. subst pipeline.
    rewrite app_assoc, take_app_le by (rewrite length_app; simpl; lia).
    destruct k as [|k]; [done|].
    change (take (S k) ([OpenRead path] ++ rules))
      with ([OpenRead path] ++ take k rules).
    apply os_read_rules_frame. by apply Forall_take.
  - subst pipeline. unfold os_run at 1. rewrite os_pipeline by done.
    rewrite os_read_rules by done.
    destruct (os_read_frame sys (reply 0) path σ) as [Hread _].
    destruct (os_exec sys (reply 0) (OpenRead path) σ) as [σ1|e σ1];
      cbn [last_state] in Hread; [|by left].
    destruct (run_rules_frame rules σ1 Hrules) as [Hfs _].
    destruct (run rules σ1) as [σ2|e σ2]; cbn [last_state] in Hfs;
      [|left; congruence].
    cbn [os_exec]. destruct (reply 1) as [| |k].
    + destruct (granted (reply 2)).
      * exists σ2. split; [done|]. cbn [fs]. congruence.
      * right. exists σ2, (length (write_newlines sys (content σ2))).
        split; [done|]. cbn [fs]. rewrite firstn_all. congruence.
    + left. congruence.
    + right. exists σ2, k. split; [done|]. cbn [fs]. congruence.
Qed.

Lemma file_written_only_after_rules_witness :
  let σ := State {["src/pages/StationHaulingPage.jsx" :=
                     lit "        alert('Please select at least one station for both origin and destination');\n"]} [] [] in
  let pipeline := [OpenRead UpdatePages.Station.path] ++ UpdatePages.Station.rules
                  ++ [OpenWrite UpdatePages.Station.path; UpdatePages.Station.report] in
  (UpdatePages.Station.path, UpdatePages.Station.rules, UpdatePages.Station.report)
    ∈ pipelines
  ∧ fs (last_state (os_run posix (λ _, Granted) (take 6 pipeline) σ)) = fs σ
  ∧ fs (last_state (os_run posix (λ _, Granted) pipeline σ)) !! UpdatePages.Station.path
    = Some (lit "        setFormError('Please select at least one station for both origin and destination');\n").
Proof.
  intros σ pipeline.
  assert ((UpdatePages.Station.path, UpdatePages.Station.rules,
           UpdatePages.Station.report) ∈ pipelines) as Hin
    by apply list_elem_of_here.
  split; [exact Hin|].
  destruct (file_written_only_after_rules posix (λ _, Granted) _ _ _ σ Hin)
    as [Hpre Hrun].
  split.
  - apply Hpre. vm_compute. lia.
  - fold pipeline in Hrun.
    destruct (os_run posix (λ _, Granted) pipeline σ) as [σ'|e σ'] eqn:Hr.
    + destruct Hrun as (σr & Hσr & Hfs). cbn [last_state]. rewrite Hfs.
      rewrite lookup_insert_eq. f_equal.
      vm_compute in Hσr. injection Hσr as <-. by_evaluation.
    + vm_compute in Hr. discriminate Hr.
Defined.

(** C4: statements run in the order they are written and each one works on
    the state its predecessor left: the run of the first n+1 statements is
    the run of the first n followed by statement n on their result.  So the
    clearing rule, whose matcher contains [setFormError(...)], finds nothing
    in a buffer that still calls [alert] but matches once the alert rule
    before it has rewritten the call, in both scripts. *)
Theorem rules_apply_in_order :
  (∀ prog n c σ σn,
     prog !! n = Some c → run (take n prog) σ = Finished σn →
     run (take (S n) prog) σ =
       match exec c σn with
       | Ok σ' => Finished σ'
       | Raise e => Uncaught e σn
       end)
  ∧ (let before := lit "      if (!fromLocation || !toLocation) {\n        alert('Please select at least one station for both origin and destination');\n        return;\n      }\n\n      try {" in
     let after := lit "      if (!fromLocation || !toLocation) {\n        setFormError('Please select at least one station for both origin and destination');\n        return;\n      }\n\n      // Clear form error on valid submission\n      setFormError('');\n\n      try {" in
     let σ := State {[UpdatePages.Station.path := before]} [] [] in
     new_content UpdatePages.Station.clear_on_success before = Ok before
     ∧ new_content FinalUpdate.Station.clear_on_valid_submission before = Ok before
     ∧ run [UpdatePages.Station.replace_alert; UpdatePages.Station.clear_on_success]
         (State ∅ before []) = Finished (State ∅ after [])
     ∧ run [FinalUpdate.Station.replace_alert;
            FinalUpdate.Station.clear_on_valid_submission]
         (State ∅ before []) = Finished (State ∅ after [])
     ∧ fs (last_state (run UpdatePages.Station.pipeline σ))
         !! UpdatePages.Station.path = Some after).
Proof.
  split.
  - intros prog n c σ σn Hc Hrun.
    rewrite (take_S_r _ _ _ Hc), run_app, Hrun. simpl.
    by destruct (exec c σn).
  - split_and!; by_evaluation.
Qed.

Lemma rules_apply_in_order_witness :
  let prog := UpdatePages.Station.rules in
  let σ := State ∅ (lit "alert('Please select at least one station for both origin and destination');") [] in
  prog !! 4 = Some UpdatePages.Station.replace_alert
  ∧ run (take 4 prog) σ = Finished σ
  ∧ run (take 5 prog) σ =
      match exec UpdatePages.Station.replace_alert σ with
      | Ok σ' => Finished σ'
      | Raise e => Uncaught e σ
      end.
Proof.
  intros prog σ.
  assert (prog !! 4 = Some UpdatePages.Station.replace_alert) as Hc by reflexivity.
  assert (run (take 4 prog) σ = Finished σ) as Hrun by by_evaluation.
  split_and!; [done..|].
  exact (proj1 rules_apply_in_order prog 4 _ σ σ Hc Hrun).
Defined.

(** C5: for every rule of the two scripts whose matcher does not occur in
    the buffer, executing the rule leaves the buffer (and the rest of the
    state) exactly as it was; no rule carries a "required" flag, so nothing
    depends on one. *)
Theorem zero_occurrences_leave_buffer (c : stmt) (m : text) (σ : state) :
  c ∈ all_rules → rule_matcher c = Some m → ¬ occurs m (content σ) →
  exec c σ = Ok σ ∧ replaced c (content σ) = 0.
Proof.
  intros Hin Hm Hno.
  destruct (all_rules_sound c Hin) as [Hc Hg]; [by eexists|].
  destruct (new_content_absent c m (content σ) Hc Hg Hm Hno) as [Hrw Hrep].
  split; [|done].
  destruct c; try done; unfold exec; rewrite Hrw; by destruct σ.
Qed.

Lemma zero_occurrences_leave_buffer_witness :
  let c := UpdatePages.Station.replace_alert in
  let σ := State ∅ (lit "  return null;\n") [] in
  c ∈ all_rules ∧ ¬ occurs (lit "        alert('Please select at least one station for both origin and destination');") (content σ)
  ∧ exec c σ = Ok σ.
Proof.
  intros c σ.
  assert (c ∈ all_rules) as Hin.
  { unfold all_rules, UpdatePages.Station.rules. apply elem_of_app; left.
    do 4 apply list_elem_of_further. apply list_elem_of_here. }
  assert (¬ occurs (lit "        alert('Please select at least one station for both origin and destination');") (content σ)) as Hno.
  { intros H%occursb_spec. vm_compute in H. discriminate. }
  split_and!; [done..|].
  exact (proj1 (zero_occurrences_leave_buffer c _ σ Hin eq_refl Hno)).
Defined.

(** C6, counterexample: the buffer holds the [toInput] line twice; the
    insertion rule of final_update.py ([count=1]) rewrites the first line and
    leaves the second, so its result is not the buffer with every match
    replaced. *)
Lemma first_match_only_counterexample :
  let rule := FinalUpdate.Station.add_formError_state in
  let line := lit "  const [toInput, setToInput] = useState('');\n" in
  let added := lit "\n  // Form validation error\n  const [formError, setFormError] = useState('');\n" in
  let buffer := line ++ line in
  rule_matcher rule = Some line
  ∧ rule_replacement rule = Some (line ++ added)
  ∧ str_count buffer line = 2
  ∧ new_content rule buffer = Ok ((line ++ added) ++ line)
  ∧ every_match_replaced buffer line (line ++ added)
      = Some ((line ++ added) ++ (line ++ added))
  ∧ Ok ((line ++ added) ++ (line ++ added)) ≠ new_content rule buffer.
Proof.
  intros rule line added buffer.
  split_and!; try by_evaluation.
  vm_compute. discriminate.
Qed.

(** C6, as amended: cut the buffer at the matches the left-to-right scan
    finds.  A substitution rule with no [count] puts its replacement at every
    cut; a rule with [count=1] puts it at the first cut only and leaves the
    later matches in place.  These are the only two kinds of rule in the
    scripts. *)
Theorem matches_replaced_up_to_count (c : stmt) (m r : text) (lim : option nat)
    (s : text) (parts : list text) :
  c ∈ all_rules →
  rule_matcher c = Some m → rule_replacement c = Some r →
  rule_limit c = Some lim → str_split s m = Some parts →
  s = str_join m parts
  ∧ Forall (λ p, ¬ occurs m p) parts
  ∧ (lim = None ∨ lim = Some 1)
  ∧ (lim = None →
       new_content c s = Ok (str_join r parts)
       ∧ replaced c s = pred (length parts))
  ∧ (lim = Some 1 →
       new_content c s = Ok (match parts with
                         | p0 :: p1 :: rest => p0 ++ r ++ str_join m (p1 :: rest)
                         | _ => s
                         end)
       ∧ replaced c s = Nat.min 1 (pred (length parts))).
Proof.
  intros Hin Hm Hr Hlim Hsplit.
  destruct (all_rules_sound c Hin) as [Hc _]; [by eexists|].
  destruct (rule_is_literal_scan c m r lim s Hc Hm Hr Hlim) as [-> ->].
  destruct m as [|o m']; [done|]. injection Hsplit as <-.
  split_and!.
  - by rewrite join_split.
  - apply split_parts_free.
  - by eapply every_rule_limit.
  - intros ->. by rewrite replace_all_join.
  - intros ->. rewrite replace_first_join.
    by destruct (split_loop o m' s) as [|p0 [|p1 rest]].
Qed.

Lemma matches_replaced_up_to_count_witness :
  let c := FinalUpdate.Station.add_formError_state in
  let line := lit "  const [toInput, setToInput] = useState('');\n" in
  let added := lit "\n  // Form validation error\n  const [formError, setFormError] = useState('');\n" in
  c ∈ all_rules
  ∧ rule_matcher c = Some line ∧ rule_replacement c = Some (line ++ added)
  ∧ rule_limit c = Some (Some 1)
  ∧ str_split (line ++ line) line = Some [[]; []; []]
  ∧ new_content c (line ++ line) = Ok ((line ++ added) ++ line)
  ∧ replaced c (line ++ line) = 1.
Proof.
  intros c line added.
  assert (c ∈ all_rules) as Hin.
  { unfold all_rules. rewrite !elem_of_app. right; right; left.
    apply list_elem_of_here. }
  assert (rule_matcher c = Some line) as Hm by by_evaluation.
  assert (rule_replacement c = Some (line ++ added)) as Hr
    by by_evaluation.
  assert (rule_limit c = Some (Some 1)) as Hlim by reflexivity.
  assert (str_split (line ++ line) line = Some [[]; []; []]) as Hsplit
    by by_evaluation.
  destruct (matches_replaced_up_to_count c _ _ _ _ _ Hin Hm Hr Hlim Hsplit)
    as (_ & _ & _ & _ & Hone).
  destruct (Hone eq_refl) as [Hrw Hrep].
  split; [exact Hin|]. split; [exact Hm|]. split; [exact Hr|].
  split; [exact Hlim|]. split; [exact Hsplit|]. split; [|exact Hrep].
  rewrite Hrw. by_evaluation.
Defined.





(** C9: two runs of a script that find the same text in the two pages leave
    the same text in the two pages and end with the same exit code, whatever
    else differs between the two starting states. *)
Theorem same_input_same_output (script : list stmt) (σ1 σ2 : state) :
  script ∈ [UpdatePages.script; FinalUpdate.script] →
  fs σ1 !! UpdatePages.Station.path = fs σ2 !! UpdatePages.Station.path →
  fs σ1 !! UpdatePages.Region.path = fs σ2 !! UpdatePages.Region.path →
  let o1 := run script σ1 in
  let o2 := run script σ2 in
  fs (last_state o1) !! UpdatePages.Station.path
    = fs (last_state o2) !! UpdatePages.Station.path
  ∧ fs (last_state o1) !! UpdatePages.Region.path
    = fs (last_state o2) !! UpdatePages.Region.path
  ∧ exit_code o1 = exit_code o2.
Proof.
  intros Hin HS HR.
  apply elem_of_cons in Hin as [->|Hin];
    [|apply list_elem_of_singleton in Hin as ->]; cbn zeta.
  - rewrite !update_pages_run, <-HS, <-HR.
    destruct (fs σ1 !! UpdatePages.Station.path) as [a|] eqn:Ha;
      cbn [last_state fs exit_code]; [|by rewrite <-HS, <-HR].
    destruct (fs σ1 !! UpdatePages.Region.path) as [b|] eqn:Hb;
      cbn [last_state fs exit_code].
    + split_and!; [|by rewrite !lookup_insert_eq|done].
      rewrite !(lookup_insert_ne _ UpdatePages.Region.path) by done.
      by rewrite !lookup_insert_eq.
    + split_and!; [by rewrite !lookup_insert_eq| |done].
      rewrite !lookup_insert_ne by done. congruence.
  - rewrite !final_update_run.
    change FinalUpdate.Station.path with UpdatePages.Station.path.
    rewrite <-HS.
    destruct (fs σ1 !! UpdatePages.Station.path) as [a|] eqn:Ha;
      cbn [last_state fs exit_code set_content]; by rewrite <-?HS, <-?HR.
Qed.

Lemma same_input_same_output_witness :
  let page := lit "        alert('Please select at least one station for both origin and destination');" in
  let σ1 := State (<[UpdatePages.Station.path := page]>
                     (<[UpdatePages.Region.path := []]> ∅)) [] [] in
  let σ2 := State (<["README.md" := lit "notes"]>
                     (<[UpdatePages.Station.path := page]>
                        (<[UpdatePages.Region.path := []]> ∅)))
              (lit "left over") [lit "earlier output"] in
  UpdatePages.script ∈ [UpdatePages.script; FinalUpdate.script]
  ∧ fs σ1 !! UpdatePages.Station.path = fs σ2 !! UpdatePages.Station.path
  ∧ fs σ1 !! UpdatePages.Region.path = fs σ2 !! UpdatePages.Region.path
  ∧ fs (last_state (run UpdatePages.script σ1)) !! UpdatePages.Station.path
    = fs (last_state (run UpdatePages.script σ2)) !! UpdatePages.Station.path.
Proof.
  intros page σ1 σ2.
  assert (UpdatePages.script ∈ [UpdatePages.script; FinalUpdate.script]) as Hin
    by apply list_elem_of_here.
  assert (fs σ1 !! UpdatePages.Station.path = fs σ2 !! UpdatePages.Station.path)
    as HS by by_evaluation.
  assert (fs σ1 !! UpdatePages.Region.path = fs σ2 !! UpdatePages.Region.path)
    as HR by by_evaluation.
  split; [exact Hin|]. split; [exact HS|]. split; [exact HR|].
  exact (proj1 (same_input_same_output _ σ1 σ2 Hin HS HR)).
Defined.

(** C10, on final_update.py: whatever the files hold, the script stops on an
    exception before its first write and its first print; no file is
    rewritten, nothing is printed and the exit code is 1.  When the Station
    page can be read the exception is the [re.error] of line 17. *)
Theorem final_update_never_writes (σ : state) :
  ∃ e σ',
    run FinalUpdate.script σ = Uncaught e σ'
    ∧ fs σ' = fs σ ∧ stdout σ' = stdout σ
    ∧ exit_code (run FinalUpdate.script σ) = 1%Z
    ∧ (is_Some (fs σ !! FinalUpdate.Station.path) →
       e = ReError unbalanced_parenthesis).
Proof.
  rewrite final_update_run.
  destruct (fs σ !! FinalUpdate.Station.path) as [a|]; do 2 eexists.
  all: split_and!; try done.
Qed.

(** * Further properties of the two scripts *)

(** ** More about the scan *)

Section scan_facts.
Context {A : Type} `{EqDecision A}.
Implicit Types s old new : list A.

Lemma occurs_trans s1 s2 s3 : occurs s1 s2 → occurs s2 s3 → occurs s1 s3.
Proof.
  intros (a & b & ->) (c & d & ->). exists (c ++ a), (b ++ d).
  by rewrite <-!app_assoc.
Qed.

Lemma occurs_app_l s pre post : occurs s pre → occurs s (pre ++ post).
Proof. intros (a & b & ->). exists a, (b ++ post). by rewrite <-!app_assoc. Qed.

Lemma occurs_app_r s pre post : occurs s post → occurs s (pre ++ post).
Proof. intros (a & b & ->). exists (pre ++ a), b. by rewrite <-!app_assoc. Qed.

(** Each replacement trades one [old] for one [new]. *)
Lemma replace_loop_length o old' new lim s :
  let r := sub_loop (literal_match (o :: old') new) lim s in
  length r.1 + r.2 * length (o :: old') = length s + r.2 * length new.
Proof.
  revert lim.
  induction s as [|r IH|c s Hno IH] using (scan_ind o old'); intros lim.
  - by rewrite replace_loop_nil.
  - destruct (decide (lim = Some 0)) as [->|Hlim]; [by rewrite sub_loop_done|].
    rewrite replace_loop_hit by done. cbn zeta. cbn [fst snd].
    specialize (IH (pred <$> lim)). cbn zeta in IH.
    rewrite !length_app. simpl in *. lia.
  - destruct (decide (lim = Some 0)) as [->|Hlim]; [by rewrite sub_loop_done|].
    rewrite replace_loop_miss by done. cbn zeta. cbn [fst snd].
    specialize (IH lim). cbn zeta in IH. simpl in *. lia.
Qed.

(** No replacement made: the buffer comes back as it was. *)
Lemma replace_loop_zero o old' new lim s :
  (sub_loop (literal_match (o :: old') new) lim s).2 = 0 →
  (sub_loop (literal_match (o :: old') new) lim s).1 = s.
Proof.
  revert lim.
  induction s as [|r IH|c s Hno IH] using (scan_ind o old'); intros lim.
  - by rewrite replace_loop_nil.
  - destruct (decide (lim = Some 0)) as [->|Hlim]; [by rewrite sub_loop_done|].
    by rewrite replace_loop_hit.
  - destruct (decide (lim = Some 0)) as [->|Hlim]; [by rewrite sub_loop_done|].
    rewrite replace_loop_miss by done. cbn zeta. cbn [fst snd].
    intros Hz. by rewrite IH.
Qed.

(** The scan replaces something exactly when the matcher occurs. *)
Lemma replace_loop_count_pos o old' new lim s :
  lim ≠ Some 0 → occurs (o :: old') s →
  1 ≤ (sub_loop (literal_match (o :: old') new) lim s).2.
Proof.
  intros Hlim.
  induction s as [|r IH|c s Hno IH] using (scan_ind o old').
  - intros ([|??] & ? & ?); done.
  - intros _. rewrite replace_loop_hit by done. simpl. lia.
  - intros [?|Ho]%occurs_cons_inv; [done|].
    rewrite replace_loop_miss by done. simpl. by apply IH.
Qed.

(** After a replacement the output holds the replacement text. *)
Lemma replace_loop_output_has_new o old' new lim s :
  1 ≤ (sub_loop (literal_match (o :: old') new) lim s).2 →
  occurs new (sub_loop (literal_match (o :: old') new) lim s).1.
Proof.
  revert lim.
  induction s as [|r IH|c s Hno IH] using (scan_ind o old'); intros lim.
  - rewrite replace_loop_nil by done. simpl. lia.
  - destruct (decide (lim = Some 0)) as [->|Hlim];
      [rewrite sub_loop_done; simpl; lia|].
    rewrite replace_loop_hit by done. intros _. cbn zeta. cbn [fst].
    apply occurs_prefix. by eexists.
  - destruct (decide (lim = Some 0)) as [->|Hlim];
      [rewrite sub_loop_done; simpl; lia|].
    rewrite replace_loop_miss by done. cbn zeta. cbn [fst snd].
    intros Hpos. by apply occurs_cons, IH.
Qed.
End scan_facts.

(** A substitution rule that compiles, seen as a literal scan. *)
Lemma rule_scan c :
  compiles c = true → is_Some (rule_replacement c) →
  ∃ m new lim,
    rule_matcher c = Some m ∧ rule_replacement c = Some new
    ∧ rule_limit c = Some lim
    ∧ ∀ s, new_content c s = Ok (sub_loop (literal_match m new) lim s).1
         ∧ apply_rule c s = (sub_loop (literal_match m new) lim s).1
         ∧ replaced c s = (sub_loop (literal_match m new) lim s).2.
Proof.
  intros Hc [new Hnew].
  assert (∃ m, rule_matcher c = Some m) as [m Hm].
  { destruct c; try done; simpl in *; [by eexists|].
    destruct (re_compile pattern); [by eexists|done]. }
  assert (∃ lim, rule_limit c = Some lim) as [lim Hlim]
    by (destruct c; try done; by eexists).
  exists m, new, lim. split_and!; try done. intros s.
  destruct (rule_is_literal_scan c m new lim s Hc Hm Hnew Hlim) as [Hrw Hrep].
  split_and!; try done. unfold apply_rule. by rewrite Hrw.
Qed.

(** X1: update_pages.py changes no file but its two pages: every other path
    holds after the run what it held before, however the run ends. *)
Theorem update_pages_touches_two_pages (σ : state) (p : string) :
  p ≠ UpdatePages.Station.path → p ≠ UpdatePages.Region.path →
  fs (last_state (run UpdatePages.script σ)) !! p = fs σ !! p.
Proof.
  intros HS HR. rewrite update_pages_run.
  destruct (fs σ !! UpdatePages.Station.path) as [a|]; [|done].
  destruct (fs σ !! UpdatePages.Region.path) as [b|];
    cbn [last_state fs]; by rewrite !lookup_insert_ne.
Qed.

Lemma update_pages_touches_two_pages_witness :
  let σ := State (<["README.md" := lit "notes"]>
                    (<[UpdatePages.Station.path := lit "page"]> ∅)) [] [] in
  "README.md" ≠ UpdatePages.Station.path
  ∧ "README.md" ≠ UpdatePages.Region.path
  ∧ fs (last_state (run UpdatePages.script σ)) !! "README.md" = fs σ !! "README.md".
Proof.
  intros σ.
  assert ("README.md" ≠ UpdatePages.Station.path) as HS by done.
  assert ("README.md" ≠ UpdatePages.Region.path) as HR by done.
  split; [exact HS|]. split; [exact HR|].
  exact (update_pages_touches_two_pages σ "README.md" HS HR).
Defined.



(** A list of rules finds nothing in [s]: checked rule by rule. *)
Lemma no_matcher_occurs_check rules s :
  forallb (λ c, match rule_matcher c with
                | Some m => negb (occursb m s)
                | None => true
                end) rules = true →
  ∀ c m, c ∈ rules → rule_matcher c = Some m → ¬ occurs m s.
Proof.
  intros Hall c m Hc Hm Ho. rewrite forallb_forall in Hall.
  apply list_elem_of_In, Hall in Hc. rewrite Hm in Hc.
  apply occursb_spec in Ho. rewrite Ho in Hc. done.
Qed.

(** X3: when both pages are read and no matcher of a pipeline occurs in its
    page, update_pages.py still writes: if every operation is carried out it
    stores each page back as Python re-encodes the text it read (line ends
    normalised on reading, the platform's line end on writing), prints its
    three lines and exits with 0.  The files are as they were when the
    platform's line end is the line feed and the pages hold no carriage
    return. *)
Theorem update_pages_without_matches
    (sys : platform) (reply : nat → os_reply) (σ : state) (a b : text) :
  fs σ !! UpdatePages.Station.path = Some a →
  fs σ !! UpdatePages.Region.path = Some b →
  decodes sys a = true → decodes sys b = true →
  (∀ i, i < 7 → reply i = Granted) →
  (∀ c m, c ∈ UpdatePages.Station.rules → rule_matcher c = Some m →
          ¬ occurs m (universal_newlines a)) →
  (∀ c m, c ∈ UpdatePages.Region.rules → rule_matcher c = Some m →
          ¬ occurs m (universal_newlines b)) →
  ∃ σ', os_run sys reply UpdatePages.script σ = Finished σ'
    ∧ fs σ' = <[UpdatePages.Region.path := write_newlines sys (universal_newlines b)]>
                (<[UpdatePages.Station.path := write_newlines sys (universal_newlines a)]>
                   (fs σ))
    ∧ stdout σ' = stdout σ ++ [lit "Updated StationHaulingPage.jsx";
                               lit "Updated RegionHaulingPage.jsx";
                               lit "All files updated successfully!"]
    ∧ exit_code (os_run sys reply UpdatePages.script σ) = 0%Z
    ∧ (linesep sys = [LF] → CR ∉ a → CR ∉ b → fs σ' = fs σ).
Proof.
  intros Ha Hb Hda Hdb Hreply HnoS HnoR.
  assert (∀ rules s,
            (∀ c, c ∈ rules → c ∈ all_rules ∧ is_Some (rule_matcher c)) →
            (∀ c m, c ∈ rules → rule_matcher c = Some m → ¬ occurs m s) →
            apply_rules rules s = s) as Hsame.
  { intros rules s Hrules Hno. apply apply_rules_absent, Forall_forall.
    intros c Hc. destruct (Hrules c Hc) as [Hall [m Hm]].
    destruct (all_rules_sound c Hall) as [? ?]; [by eexists|].
    split_and!; try done. exists m. split; [done|]. by eapply Hno. }
  assert (∀ c, c ∈ UpdatePages.Station.rules ++ UpdatePages.Region.rules →
               c ∈ all_rules ∧ is_Some (rule_matcher c)) as Hup.
  { intros c Hc. split.
    - unfold all_rules. rewrite app_assoc. by apply elem_of_app; left.
    - apply list_elem_of_In in Hc.
      assert (forallb (λ c, bool_decide (is_Some (rule_matcher c)))
                (UpdatePages.Station.rules ++ UpdatePages.Region.rules) = true)
        as Hall by by_evaluation.
      rewrite forallb_forall in Hall. apply Hall in Hc.
      by apply bool_decide_eq_true in Hc. }
  destruct (os_update_pages_run sys reply σ) as (Hexit & _ & Hrun).
  cbn zeta in Hexit, Hrun.
  assert (readable sys σ UpdatePages.Station.path && granted (reply 0)
          && granted (reply 1) && granted (reply 2)
          && (readable sys σ UpdatePages.Region.path && granted (reply 3)
              && granted (reply 4) && granted (reply 5))
          && granted (reply 6) = true) as Hok.
  { unfold readable. rewrite Ha, Hb, Hda, Hdb. by rewrite !Hreply by lia. }
  destruct (Hrun Hok) as (a' & b' & Ha' & Hb' & Hfin).
  rewrite Ha in Ha'. rewrite Hb in Hb'. injection Ha' as <-. injection Hb' as <-.
  rewrite (Hsame UpdatePages.Station.rules (universal_newlines a)) in Hfin.
  2:{ intros c Hc. apply Hup, elem_of_app. by left. }
  2:{ exact HnoS. }
  rewrite (Hsame UpdatePages.Region.rules (universal_newlines b)) in Hfin.
  2:{ intros c Hc. apply Hup, elem_of_app. by right. }
  2:{ exact HnoR. }
  eexists. split; [exact Hfin|]. cbn [fs stdout].
  split; [reflexivity|]. split; [reflexivity|]. split; [by apply Hexit|].
  intros Hsep Hca Hcb.
  rewrite !write_newlines_lf, !universal_newlines_plain by done.
  rewrite (insert_id (fs σ) _ _ Ha). by rewrite insert_id.
Qed.

Lemma update_pages_without_matches_witness :
  let a := lit "export default function Station() {}\x0d\n" in
  let b := lit "export default function Region() {}\n" in
  let σ := State (<[UpdatePages.Station.path := a]>
                    (<[UpdatePages.Region.path := b]> ∅)) [] [] in
  fs σ !! UpdatePages.Station.path = Some a
  ∧ fs σ !! UpdatePages.Region.path = Some b
  ∧ ∃ σ', os_run posix (λ _, Granted) UpdatePages.script σ = Finished σ'
      ∧ fs σ' !! UpdatePages.Station.path
        = Some (lit "export default function Station() {}\n")
      ∧ fs σ' !! UpdatePages.Region.path = Some b.
Proof.
  intros a b σ.
  assert (fs σ !! UpdatePages.Station.path = Some a) as Ha by by_evaluation.
  assert (fs σ !! UpdatePages.Region.path = Some b) as Hb by by_evaluation.
  split; [exact Ha|]. split; [exact Hb|].
  destruct (update_pages_without_matches posix (λ _, Granted) σ a b Ha Hb)
    as (σ' & Hrun & Hfs & _).
  - by_evaluation.
  - by_evaluation.
  - reflexivity.
  - apply no_matcher_occurs_check. by_evaluation.
  - apply no_matcher_occurs_check. by_evaluation.
  - exists σ'. split; [exact Hrun|]. rewrite Hfs. split.
    + rewrite lookup_insert_ne by done. rewrite lookup_insert_eq. by_evaluation.
    + rewrite lookup_insert_eq. by_evaluation.
Defined.

(** X4: in update_pages.py the two pages are rewritten independently.  The
    Station page after the run is fixed by the Station page before it and by
    how its read and its write went, whatever the Region page holds and
    whatever happens later; and when the Station page has been read, stored
    and reported, the Region page after the run is fixed by the Region page
    before it and by how its read and its write went. *)
Theorem update_pages_pages_independent
    (sys : platform) (reply1 reply2 : nat → os_reply) (σ1 σ2 : state) :
  (fs σ1 !! UpdatePages.Station.path = fs σ2 !! UpdatePages.Station.path →
   reply1 0 = reply2 0 → reply1 1 = reply2 1 →
   fs (last_state (os_run sys reply1 UpdatePages.script σ1)) !! UpdatePages.Station.path
   = fs (last_state (os_run sys reply2 UpdatePages.script σ2)) !! UpdatePages.Station.path)
  ∧ (readable sys σ1 UpdatePages.Station.path = true →
     readable sys σ2 UpdatePages.Station.path = true →
     (∀ i, i < 3 → reply1 i = Granted ∧ reply2 i = Granted) →
     fs σ1 !! UpdatePages.Region.path = fs σ2 !! UpdatePages.Region.path →
     reply1 3 = reply2 3 → reply1 4 = reply2 4 →
     fs (last_state (os_run sys reply1 UpdatePages.script σ1)) !! UpdatePages.Region.path
     = fs (last_state (os_run sys reply2 UpdatePages.script σ2)) !! UpdatePages.Region.path).
Proof.
  split.
  - intros HS H0 H1. rewrite !os_update_pages_station_page. congruence.
  - intros Hr1 Hr2 Hreply HR H3 H4.
    rewrite !os_update_pages_region_page; [congruence|..].
    + rewrite Hr2. destruct (Hreply 0), (Hreply 1), (Hreply 2); try lia.
      by repeat match goal with H : _ = Granted |- _ => rewrite H; clear H end.
    + rewrite Hr1. destruct (Hreply 0), (Hreply 1), (Hreply 2); try lia.
      by repeat match goal with H : _ = Granted |- _ => rewrite H; clear H end.
Qed.

Lemma update_pages_pages_independent_witness :
  let a := lit "        alert('Please select at least one station for both origin and destination');" in
  let σ1 := State (<[UpdatePages.Station.path := a]> ∅) [] [] in
  let σ2 := State (<[UpdatePages.Station.path := a]>
                     (<[UpdatePages.Region.path := lit "region"]> ∅)) [] [] in
  let σ3 := State (<[UpdatePages.Station.path := lit "station"]>
                     (<[UpdatePages.Region.path := lit "region"]> ∅)) [] [] in
  let reply1 (n : nat) := Granted in
  let reply2 (n : nat) := if (n =? 4)%nat then Broken 3 else Granted in
  let reply3 (n : nat) := if (n =? 4)%nat then Broken 3 else
                          if (n =? 6)%nat then Denied else Granted in
  (fs σ1 !! UpdatePages.Station.path = fs σ2 !! UpdatePages.Station.path
   ∧ fs (last_state (os_run posix reply1 UpdatePages.script σ1)) !! UpdatePages.Station.path
     = fs (last_state (os_run posix reply2 UpdatePages.script σ2)) !! UpdatePages.Station.path)
  ∧ (fs σ2 !! UpdatePages.Region.path = fs σ3 !! UpdatePages.Region.path
     ∧ fs (last_state (os_run posix reply2 UpdatePages.script σ2)) !! UpdatePages.Region.path
       = fs (last_state (os_run posix reply3 UpdatePages.script σ3)) !! UpdatePages.Region.path).
Proof.
  intros a σ1 σ2 σ3 reply1 reply2 reply3.
  assert (fs σ1 !! UpdatePages.Station.path = fs σ2 !! UpdatePages.Station.path)
    as HS by by_evaluation.
  assert (fs σ2 !! UpdatePages.Region.path = fs σ3 !! UpdatePages.Region.path)
    as HR by by_evaluation.
  assert (readable posix σ2 UpdatePages.Station.path = true) as Hr2
    by by_evaluation.
  assert (readable posix σ3 UpdatePages.Station.path = true) as Hr3
    by by_evaluation.
  assert (∀ i, i < 3 → reply2 i = Granted ∧ reply3 i = Granted) as Hreply.
  { intros i Hi. do 3 (destruct i as [|i]; [split; reflexivity|]). lia. }
  split.
  - split; [exact HS|].
    exact (proj1 (update_pages_pages_independent posix reply1 reply2 σ1 σ2)
             HS eq_refl eq_refl).
  - split; [exact HR|].
    exact (proj2 (update_pages_pages_independent posix reply2 reply3 σ2 σ3)
             Hr2 Hr3 Hreply HR eq_refl eq_refl).
Defined.

(** Every rule of update_pages.py is a [str.replace] whose replacement is
    longer than its non-empty matcher. *)
Lemma update_pages_rules_grow c :
  c ∈ UpdatePages.Station.rules ++ UpdatePages.Region.rules →
  ∃ o old' new count,
    c = Replace (o :: old') new count ∧ length (o :: old') < length new.
Proof.
  unfold UpdatePages.Station.rules, UpdatePages.Region.rules.
  cbn [app]. rewrite !elem_of_cons, elem_of_nil.
  intros H. repeat (destruct H as [->|H]); [..|done].
  all: eexists _, _, _, _; split; [by_evaluation|vm_compute; lia].
Qed.

(** X5: update_pages.py never shortens a page.  Each rule lengthens the
    buffer by the same amount for every replacement it makes, so a pipeline
    returns a buffer at least as long as the one it got, and of the same
    length only when it is the very same buffer. *)
Theorem update_pages_never_shortens (rules : list stmt) (s : text) :
  rules ∈ [UpdatePages.Station.rules; UpdatePages.Region.rules] →
  length s ≤ length (apply_rules rules s)
  ∧ (length (apply_rules rules s) = length s → apply_rules rules s = s).
Proof.
  intros Hrules.
  assert (∀ c, c ∈ rules →
               c ∈ UpdatePages.Station.rules ++ UpdatePages.Region.rules) as Hin.
  { intros c Hc. apply elem_of_app.
    apply elem_of_cons in Hrules as [->|Hrules]; [by left|].
    apply list_elem_of_singleton in Hrules as ->. by right. }
  clear Hrules. revert s.
  induction rules as [|c rules IH]; intros s; [done|].
  cbn [apply_rules foldl]. fold (apply_rules rules (apply_rule c s)).
  destruct (update_pages_rules_grow c) as (o & old' & new & count & -> & Hlen);
    [apply Hin, list_elem_of_here|].
  set (out1 := apply_rule (Replace (o :: old') new count) s).
  assert (length s ≤ length out1 ∧ (length out1 = length s → out1 = s))
    as [Hso Hsame1].
  { subst out1. unfold apply_rule. cbn [new_content].
    unfold str_replace, str_replace_n.
    pose proof (replace_loop_length o old' new (replace_limit count) s) as Hl.
    pose proof (replace_loop_zero o old' new (replace_limit count) s) as Hz.
    cbn zeta in Hl.
    destruct (sub_loop (literal_match (o :: old') new) (replace_limit count) s)
      as [out n]; cbn [fst snd] in *.
    split; [nia|]. intros Hsame. apply Hz. nia. }
  destruct (IH (λ c Hc, Hin c (list_elem_of_further _ _ _ Hc)) out1) as [Hle Heq].
  split; [lia|]. intros Hsame.
  assert (length out1 = length s) as Hout by lia.
  rewrite Heq by lia. by apply Hsame1.
Qed.

Lemma update_pages_never_shortens_witness :
  let s := lit "        alert('Please select at least one station for both origin and destination');" in
  UpdatePages.Station.rules ∈ [UpdatePages.Station.rules; UpdatePages.Region.rules]
  ∧ length s ≤ length (apply_rules UpdatePages.Station.rules s).
Proof.
  intros s.
  assert (UpdatePages.Station.rules
            ∈ [UpdatePages.Station.rules; UpdatePages.Region.rules]) as Hin
    by apply list_elem_of_here.
  split; [exact Hin|].
  exact (proj1 (update_pages_never_shortens _ s Hin)).
Defined.

(** X6: fourteen of the fifteen rules of update_pages.py are idempotent on
    every buffer: the output of the rule no longer holds its matcher, so
    applying the rule to its own output changes nothing.  (The fifteenth,
    the Region rule that adds the clearing call, is X7.) *)
Theorem update_pages_rules_idempotent (c : stmt) (s : text) :
  c ∈ UpdatePages.Station.rules
      ++ [UpdatePages.Region.add_formError_state;
          UpdatePages.Region.updateForm_clear_error;
          UpdatePages.Region.replace_origin_alert;
          UpdatePages.Region.replace_destination_alert;
          UpdatePages.Region.form_error_ui;
          UpdatePages.Region.api_error_aria] →
  ∃ m, rule_matcher c = Some m
    ∧ ¬ occurs m (apply_rule c s)
    ∧ apply_rule c (apply_rule c s) = apply_rule c s
    ∧ replaced c (apply_rule c s) = 0.
Proof.
  intros Hc.
  assert (∃ m r, c = Replace m r (-1) ∧ no_rematch m r = true)
    as (m & r & -> & Hnr).
  { revert Hc. unfold UpdatePages.Station.rules. cbn [app].
    rewrite !elem_of_cons, elem_of_nil.
    intros H. repeat (destruct H as [->|H]); [..|done].
    all: eexists _, _; split; by_evaluation. }
  exists m. split; [done|].
  assert (apply_rule (Replace m r (-1)) s
          = (sub_loop (literal_match m r) None s).1) as -> by done.
  pose proof (no_rematch_sound m r s Hnr) as Hno.
  split; [done|].
  unfold apply_rule, replaced. cbn [new_content].
  unfold str_replace, str_replace_n.
  change (replace_limit (-1)) with (@None nat).
  by rewrite replace_loop_absent.
Qed.

Lemma update_pages_rules_idempotent_witness :
  let c := UpdatePages.Station.replace_alert in
  let s := lit "        alert('Please select at least one station for both origin and destination');" in
  c ∈ UpdatePages.Station.rules
      ++ [UpdatePages.Region.add_formError_state;
          UpdatePages.Region.updateForm_clear_error;
          UpdatePages.Region.replace_origin_alert;
          UpdatePages.Region.replace_destination_alert;
          UpdatePages.Region.form_error_ui;
          UpdatePages.Region.api_error_aria]
  ∧ ∃ m, rule_matcher c = Some m
      ∧ ¬ occurs m (apply_rule c s)
      ∧ apply_rule c (apply_rule c s) = apply_rule c s
      ∧ replaced c (apply_rule c s) = 0.
Proof.
  intros c s.
  assert (c ∈ UpdatePages.Station.rules
      ++ [UpdatePages.Region.add_formError_state;
          UpdatePages.Region.updateForm_clear_error;
          UpdatePages.Region.replace_origin_alert;
          UpdatePages.Region.replace_destination_alert;
          UpdatePages.Region.form_error_ui;
          UpdatePages.Region.api_error_aria]) as Hin.
  { apply elem_of_app; left. unfold UpdatePages.Station.rules.
    do 4 apply list_elem_of_further. apply list_elem_of_here. }
  split; [exact Hin|].
  exact (update_pages_rules_idempotent c s Hin).
Defined.

(** X7: the Region rule of update_pages.py that adds the clearing call
    (lines 101-104) and its counterpart in final_update.py (lines 146-151)
    keep their matcher inside their replacement.  Whenever such a rule has
    replaced something, its output is longer, still holds the matcher, and a
    second application replaces again and lengthens the buffer again: every
    re-run adds another copy of the clearing call. *)
Theorem clearing_rule_inserts_on_every_run (c : stmt) (s : text) :
  c ∈ [UpdatePages.Region.clear_on_success;
       FinalUpdate.Region.clear_on_valid_submission] →
  1 ≤ replaced c s →
  length s < length (apply_rule c s)
  ∧ 1 ≤ replaced c (apply_rule c s)
  ∧ length (apply_rule c s) < length (apply_rule c (apply_rule c s)).
Proof.
  intros Hc.
  assert (compiles c = true ∧ ∃ o m' new lim,
            rule_matcher c = Some (o :: m') ∧ rule_replacement c = Some new
            ∧ rule_limit c = Some lim ∧ lim ≠ Some 0
            ∧ occurs (o :: m') new ∧ length (o :: m') < length new)
    as (Hcomp & o & m' & new & lim & Hm & Hr & Hlim & Hpos & Hocc & Hlen).
  { apply elem_of_cons in Hc as [->|Hc];
      [|apply list_elem_of_singleton in Hc as ->].
    all: split; [by_evaluation|].
    all: eexists _, _, _, _; split_and!; try by_evaluation; try done.
    all: try (apply occursb_spec; by_evaluation).
    all: vm_compute; lia. }
  assert (∀ x, apply_rule c x = (sub_loop (literal_match (o :: m') new) lim x).1
               ∧ replaced c x = (sub_loop (literal_match (o :: m') new) lim x).2)
    as Hscan.
  { intros x.
    destruct (rule_is_literal_scan c _ _ _ x Hcomp Hm Hr Hlim) as [Hrw Hrep].
    split; [|done]. unfold apply_rule. by rewrite Hrw. }
  assert (∀ x, 1 ≤ replaced c x → length x < length (apply_rule c x)) as Hgrow.
  { intros x. destruct (Hscan x) as [-> ->].
    pose proof (replace_loop_length o m' new lim x) as Hl. cbn zeta in Hl.
    destruct (sub_loop (literal_match (o :: m') new) lim x) as [out n].
    cbn [fst snd] in *. intros Hn. nia. }
  intros Hrep.
  assert (1 ≤ replaced c (apply_rule c s)) as Hagain.
  { destruct (Hscan (apply_rule c s)) as [_ ->].
    apply replace_loop_count_pos; [done|].
    apply occurs_trans with new; [done|].
    destruct (Hscan s) as [-> Hn]. rewrite Hn in Hrep.
    by apply replace_loop_output_has_new. }
  split_and!; [by apply Hgrow|done|by apply Hgrow].
Qed.

Lemma clearing_rule_inserts_on_every_run_witness :
  let c := UpdatePages.Region.clear_on_success in
  let s := lit "      const fromParam = `${form.fromPreference}-${fromId}`;" in
  c ∈ [UpdatePages.Region.clear_on_success;
       FinalUpdate.Region.clear_on_valid_submission]
  ∧ 1 ≤ replaced c s
  ∧ 1 ≤ replaced c (apply_rule c s).
Proof.
  intros c s.
  assert (c ∈ [UpdatePages.Region.clear_on_success;
               FinalUpdate.Region.clear_on_valid_submission]) as Hin
    by apply list_elem_of_here.
  assert (1 ≤ replaced c s) as Hrep by (vm_compute; lia).
  split; [exact Hin|]. split; [exact Hrep|].
  exact (proj1 (proj2 (clearing_rule_inserts_on_every_run c s Hin Hrep))).
Defined.

(** X8: the guards of the two Station fallbacks of final_update.py.  With
    fewer than two delimiters the removeStation fallback leaves the buffer
    alone, and with fewer than three the updateForm fallback does; with
    exactly two delimiters the removeStation fallback already fires and
    keeps only the text before the first and after the second. *)
Theorem station_fallback_guards (s : text) :
  let sep := lit "  }, []);" in
  (str_count s sep < 2 →
     new_content FinalUpdate.Station.removeStation_fallback s = Ok s)
  ∧ (str_count s sep < 3 →
     new_content FinalUpdate.Station.updateForm_fallback s = Ok s)
  ∧ (str_count s sep = 2 →
     ∃ p0 p1 p2,
       s = p0 ++ sep ++ p1 ++ sep ++ p2
       ∧ ¬ occurs sep p0 ∧ ¬ occurs sep p1 ∧ ¬ occurs sep p2
       ∧ new_content FinalUpdate.Station.removeStation_fallback s
         = Ok (p0 ++ p2)).
Proof.
  intros sep.
  unfold FinalUpdate.Station.removeStation_fallback,
    FinalUpdate.Station.updateForm_fallback.
  fold sep.
  assert (∃ o sep', sep = o :: sep') as (o & sep' & Hsep)
    by (do 2 eexists; by_evaluation).
  clearbody sep. subst sep.
  pose proof (str_count_split o sep' s) as Hparts.
  pose proof (join_split o sep' s) as Hjoin.
  pose proof (split_parts_free o sep' s) as Hfree.
  cbn [new_content]. unfold str_split.
  split_and!.
  - intros Hlt. by rewrite decide_False by lia.
  - intros Hlt. by rewrite decide_False by lia.
  - intros Heq.
    destruct (split_loop o sep' s) as [|p0 [|p1 [|p2 [|p3 rest]]]];
      simpl in Hparts; try lia.
    exists p0, p1, p2.
    apply Forall_cons in Hfree as [H0 Hfree].
    apply Forall_cons in Hfree as [H1 Hfree].
    apply Forall_cons in Hfree as [H2 _].
    rewrite decide_True by (simpl; lia).
    split_and!; try done.
    all: by rewrite <-Hjoin.
Qed.

Lemma station_fallback_guards_witness :
  let s := lit "a  }, []);b  }, []);c" in
  str_count s (lit "  }, []);") < 3 ∧ str_count s (lit "  }, []);") = 2
  ∧ new_content FinalUpdate.Station.updateForm_fallback s = Ok s
  ∧ new_content FinalUpdate.Station.removeStation_fallback s = Ok (lit "ac").
Proof.
  intros s.
  assert (str_count s (lit "  }, []);") < 3) as Hlt by (vm_compute; lia).
  assert (str_count s (lit "  }, []);") = 2) as Heq by by_evaluation.
  split; [exact Hlt|]. split; [exact Heq|].
  destruct (station_fallback_guards s) as (_ & Hup & Hrm).
  split; [exact (Hup Hlt)|].
  destruct (Hrm Heq) as (p0 & p1 & p2 & Hs & _ & _ & _ & Hres).
  pose proof Hres as Hval. vm_compute in Hval. rewrite Hres.
  exact (eq_sym Hval).
Defined.

(** X9: the Region fallback of final_update.py (lines 128-133), which splits
    at the delimiter, appends the new dependency list to the first part and
    joins the rest back, is on every buffer the same as replacing the first
    delimiter by the new dependency list: unlike the two Station fallbacks
    it loses no text. *)
Theorem region_fallback_replaces_first (s : text) :
  new_content FinalUpdate.Region.updateForm_fallback s
  = Ok (str_replace s (lit "  }, []);") (lit "  }, [formError]);") 1).
Proof.
  unfold FinalUpdate.Region.updateForm_fallback.
  set (sep := lit "  }, []);"). set (deps := lit "  }, [formError]);").
  assert (∃ o sep', sep = o :: sep') as (o & sep' & Hsep)
    by (do 2 eexists; by_evaluation).
  clearbody sep deps. subst sep.
  cbn [new_content]. unfold str_split, str_replace, str_replace_n.
  change (replace_limit 1) with (Some 1).
  rewrite replace_first_join.
  pose proof (split_loop_ne o sep' s) as Hne.
  destruct (split_loop o sep' s) as [|p0 [|p1 rest]]; [done|..].
  - by rewrite decide_False by (simpl; lia).
  - rewrite decide_True by (simpl; lia). cbn [fst].
    f_equal. simpl. by rewrite <-app_assoc.
Qed.

(** An exception of a rule does not depend on the buffer either. *)
Lemma new_content_raises c e s :
  new_content c [] = Raise e → new_content c s = Raise e.
Proof.
  destruct c as [|old new count|pattern repl count|sep n body| |]; try done.
  - unfold new_content, re_sub, re_subn.
    destruct (re_compile pattern) as [re|]; [|done]. simpl.
    destruct (tmpl_parse repl) as [tm|]; [|done]. simpl.
    by destruct (tmpl_refs_ok (group_count re) tm).
  - unfold new_content. by destruct sep.
Qed.

(** X10: which statements of final_update.py raise.  On every buffer the
    re.sub statements of lines 17, 26, 39 (Station rules 1, 3, 5) and of line
    120 (Region rule 2) raise re.error for an unbalanced parenthesis, and
    every other rule of the script returns a buffer. *)
Theorem final_update_raising_rules (i : nat) (c : stmt) (s : text) :
  (FinalUpdate.Station.rules !! i = Some c →
   new_content c s = if bool_decide (i ∈ [1; 3; 5])
                     then Raise (ReError unbalanced_parenthesis)
                     else Ok (apply_rule c s))
  ∧ (FinalUpdate.Region.rules !! i = Some c →
     new_content c s = if bool_decide (i = 2)
                       then Raise (ReError unbalanced_parenthesis)
                       else Ok (apply_rule c s)).
Proof.
  split.
  - unfold FinalUpdate.Station.rules.
    do 11 (destruct i as [|i];
           [intros [= <-];
            first [ apply new_content_raises; by_evaluation
                  | apply new_content_total; by_evaluation ] |]).
    done.
  - unfold FinalUpdate.Region.rules.
    do 10 (destruct i as [|i];
           [intros [= <-];
            first [ apply new_content_raises; by_evaluation
                  | apply new_content_total; by_evaluation ] |]).
    done.
Qed.

Lemma final_update_raising_rules_witness :
  FinalUpdate.Station.rules !! 3 = Some FinalUpdate.Station.removeStation_callback
  ∧ new_content FinalUpdate.Station.removeStation_callback (lit "anything")
    = Raise (ReError unbalanced_parenthesis).
Proof.
  assert (FinalUpdate.Station.rules !! 3
          = Some FinalUpdate.Station.removeStation_callback) as Hc by reflexivity.
  split; [exact Hc|].
  exact (proj1 (final_update_raising_rules 3 _ (lit "anything")) Hc).
Defined.

(** X11: the re.sub calls of final_update.py that compile use no regular
    expression operator: each one is, on every buffer, the str.replace of one
    fixed text by another, with the same bound on the number of
    replacements. *)
Theorem re_sub_rules_are_replace (c : stmt) (pattern repl : text) (count : Z) :
  c ∈ all_rules → c = ReSub pattern repl count → compiles c = true →
  ∃ old new,
    rule_matcher c = Some old ∧ rule_replacement c = Some new
    ∧ ∀ s, new_content c s
           = Ok (str_replace s old new (if decide (count = 0)%Z then -1 else count)).
Proof.
  intros Hin -> Hc.
  destruct (every_rule_limit _ (sub_limit count) Hin eq_refl) as [Hlim|Hlim].
  all: assert (sub_limit count
               = replace_limit (if decide (count = 0)%Z then -1 else count)) as Hl
    by (revert Hlim; unfold sub_limit, replace_limit;
        destruct (decide (count = 0)%Z); [done|];
        intros [= Hk]; rewrite decide_False by lia; done).
  all: destruct (rule_scan _ Hc) as (m & new & lim & Hm & Hnew & Hlim' & Hs);
    [ revert Hc; unfold compiles, rule_replacement, new_content, re_sub, re_subn;
      destruct (re_compile pattern); [|done]; simpl;
      by destruct (tmpl_parse repl) |].
  all: exists m, new; split_and!; try done; intros s.
  all: destruct (Hs s) as [-> _]; injection Hlim' as <-.
  all: unfold str_replace, str_replace_n; by rewrite Hl.
Qed.

Lemma re_sub_rules_are_replace_witness :
  let c := FinalUpdate.Station.clear_on_valid_submission in
  c ∈ all_rules ∧ compiles c = true
  ∧ ∃ old new, rule_matcher c = Some old ∧ rule_replacement c = Some new
      ∧ ∀ s, new_content c s = Ok (str_replace s old new (-1)).
Proof.
  intros c.
  assert (c ∈ all_rules) as Hin.
  { unfold all_rules. rewrite !elem_of_app. right; right; left.
    unfold FinalUpdate.Station.rules.
    do 8 apply list_elem_of_further. apply list_elem_of_here. }
  assert (compiles c = true) as Hc by by_evaluation.
  split; [exact Hin|]. split; [exact Hc|].
  exact (re_sub_rules_are_replace c _ _ 0 Hin eq_refl Hc).
Defined.

(** With at most one occurrence, replacing the first match and replacing
    every match are the same. *)
Lemma replace_first_is_all {A} `{EqDecision A} (o : A) old' new s :
  length (split_loop o old' s) ≤ 2 →
  (sub_loop (literal_match (o :: old') new) (Some 1) s).1
  = (sub_loop (literal_match (o :: old') new) None s).1.
Proof.
  rewrite replace_first_join, replace_all_join.
  pose proof (join_split o old' s) as Hj.
  destruct (split_loop o old' s) as [|p0 [|p1 [|p2 rest]]]; simpl in *;
    try done; lia.
Qed.

(** X12: the two scripts share rules.  The rule that adds the clearing call
    to the Station page is the same function of the buffer in both scripts
    (str.replace in update_pages.py, re.sub in final_update.py).  The rule
    that declares formError in the Region page has the same matcher and
    replacement in both, but final_update.py stops after the first match, so
    the two agree exactly on the buffers that hold the matcher at most
    once. *)
Theorem scripts_share_rules (s : text) :
  new_content FinalUpdate.Station.clear_on_valid_submission s
  = new_content UpdatePages.Station.clear_on_success s
  ∧ (str_count s (lit "  });\n\n  // Get nearby regions") ≤ 1 →
     new_content FinalUpdate.Region.add_formError_state s
     = new_content UpdatePages.Region.add_formError_state s).
Proof.
  split.
  - assert (∃ m new,
              rule_matcher FinalUpdate.Station.clear_on_valid_submission = Some m
              ∧ rule_replacement FinalUpdate.Station.clear_on_valid_submission = Some new
              ∧ UpdatePages.Station.clear_on_success = Replace m new (-1))
      as (m & new & Hm & Hr & ->) by (eexists _, _; split_and!; by_evaluation).
    assert (compiles FinalUpdate.Station.clear_on_valid_submission = true)
      as Hc by by_evaluation.
    assert (rule_limit FinalUpdate.Station.clear_on_valid_submission = Some None)
      as Hl by by_evaluation.
    destruct (rule_is_literal_scan
                FinalUpdate.Station.clear_on_valid_submission m new None s
                Hc Hm Hr Hl) as [Hrw _].
    exact Hrw.
  - assert (∃ o m' new,
              lit "  });\n\n  // Get nearby regions" = o :: m'
              ∧ rule_matcher FinalUpdate.Region.add_formError_state = Some (o :: m')
              ∧ rule_replacement FinalUpdate.Region.add_formError_state = Some new
              ∧ UpdatePages.Region.add_formError_state = Replace (o :: m') new (-1))
      as (o & m' & new & -> & Hm & Hr & ->)
      by (eexists _, _, _; split_and!; by_evaluation).
    assert (compiles FinalUpdate.Region.add_formError_state = true)
      as Hc by by_evaluation.
    assert (rule_limit FinalUpdate.Region.add_formError_state = Some (Some 1))
      as Hl by by_evaluation.
    destruct (rule_is_literal_scan
                FinalUpdate.Region.add_formError_state (o :: m') new (Some 1) s
                Hc Hm Hr Hl) as [Hrw _].
    rewrite Hrw.
    intros Hcount. cbn [new_content]. unfold str_replace, str_replace_n.
    change (replace_limit (-1)) with (@None nat).
    f_equal. apply replace_first_is_all.
    pose proof (str_count_split o m' s). lia.
Qed.

Lemma scripts_share_rules_witness :
  let s := lit "  });\n\n  // Get nearby regions\n" in
  str_count s (lit "  });\n\n  // Get nearby regions") ≤ 1
  ∧ new_content FinalUpdate.Region.add_formError_state s
    = new_content UpdatePages.Region.add_formError_state s.
Proof.
  intros s.
  assert (str_count s (lit "  });\n\n  // Get nearby regions") ≤ 1) as Hc
    by (vm_compute; lia).
  split; [exact Hc|].
  exact (proj2 (scripts_share_rules s) Hc).
Defined.
